(** * Simple Inbox Status: the background script, embedded and verified

    The repository ships two copies of [background.js]:
    - [src/chrome/src/background.js], embedded in [Module Chrome];
    - [src/unnamed/part_000], another copy of the same script, embedded in
      [Module Part000].
    Functions that are the same text in both copies ([parse_auth_response],
    [validate_id_token], [create_nonce], [update_status_badge]) are embedded
    once, in [Module Shared].

    Strings are sequences of bytes (the UTF-8 form of the script's strings).
    A JavaScript number is an integer that a double holds, an infinity or
    NaN, and arithmetic on numbers rounds as IEEE 754 doubles do. *)

From Stdlib Require Import ZArith String Ascii List Bool Lia.
From stdpp Require Import base gmap strings list pretty.

Open Scope string_scope.
Open Scope Z_scope.

(** ** The parts of JavaScript the script uses *)

Module Js.

(** A value that is [undefined], [null] or a string: the token fields, the
    nonce, the profile fields and the values of the parsed redirect. The
    last two are what a plain object inherits from [Object.prototype]: a
    built-in function, with its name and its number of parameters, and an
    object without a property that the script reads (the prototype itself,
    or [{}]). *)
Inductive jsval :=
| JUndefined
| JNull
| JString (s : string)
| JFunction (name : string) (length : nat)
| JObject.

#[global] Instance jsval_eq_dec : EqDecision jsval.
Proof. solve_decision. Defined.

(** Template-literal conversion [`${v}`]. *)
Definition to_string (v : jsval) : string :=
  match v with
  | JUndefined => "undefined"
  | JNull => "null"
  | JString s => s
  | JFunction name _ => "function " +:+ name +:+ "() { [native code] }"
  | JObject => "[object Object]"
  end.

(** Truthiness: [undefined], [null] and the empty string are falsy. *)
Definition truthy (v : jsval) : bool :=
  match v with
  | JUndefined | JNull | JString EmptyString => false
  | JString (String _ _) | JFunction _ _ | JObject => true
  end.

(** The properties of [Object.prototype], which every plain object
    inherits. [__proto__] is an accessor: read, it gives the prototype;
    assigned a value that is neither an object nor [null], it does
    nothing. The others are functions that an assignment shadows. *)
Definition Object_prototype : list (string * jsval) :=
  [("constructor", JFunction "Object" 1);
   ("__defineGetter__", JFunction "__defineGetter__" 2);
   ("__defineSetter__", JFunction "__defineSetter__" 2);
   ("hasOwnProperty", JFunction "hasOwnProperty" 1);
   ("__lookupGetter__", JFunction "__lookupGetter__" 1);
   ("__lookupSetter__", JFunction "__lookupSetter__" 1);
   ("isPrototypeOf", JFunction "isPrototypeOf" 1);
   ("propertyIsEnumerable", JFunction "propertyIsEnumerable" 1);
   ("toString", JFunction "toString" 0);
   ("valueOf", JFunction "valueOf" 0);
   ("__proto__", JObject);
   ("toLocaleString", JFunction "toLocaleString" 0)].

(** [object[key]] for a key that is not a property of the object itself:
    the inherited property, or [undefined]. *)
Definition inherited (key : string) : jsval :=
  match List.find (fun kv => String.eqb (fst kv) key) Object_prototype with
  | Some kv => snd kv
  | None => JUndefined
  end.

(** A JavaScript number of the kind the script computes with: an integer
    that a double holds, an infinity, or NaN. *)
Inductive number :=
| finite (z : Z)
| infinity
| neg_infinity
| NaN.

Coercion finite : Z >-> number.

(** The double nearest to the integer [n], ties to even: [n] itself below
    2^53, the nearest multiple of the last place above, and an infinity
    from 2^1024 - 2^970 on. *)
Definition double (n : Z) : number :=
  let a := Z.abs n in
  if a <? 2 ^ 53 then finite n
  else
    let e := Z.log2 a - 52 in
    let q := a / 2 ^ e in
    let r := a mod 2 ^ e in
    let q := if (2 * r <? 2 ^ e) || ((2 * r =? 2 ^ e) && Z.even q)
             then q else q + 1 in
    if 2 ^ 1024 <=? q * 2 ^ e
    then (if n <? 0 then neg_infinity else infinity)
    else finite (Z.sgn n * (q * 2 ^ e)).

Definition negative (a : number) : bool :=
  match a with
  | finite z => z <? 0
  | neg_infinity => true
  | infinity | NaN => false
  end.

(** [a + b], [a - b] and [a * b]: the exact result, rounded. *)
Definition add (a b : number) : number :=
  match a, b with
  | finite x, finite y => double (x + y)
  | NaN, _ | _, NaN => NaN
  | infinity, neg_infinity | neg_infinity, infinity => NaN
  | infinity, _ | _, infinity => infinity
  | neg_infinity, _ | _, neg_infinity => neg_infinity
  end.

Definition opp (a : number) : number :=
  match a with
  | finite x => finite (- x)
  | infinity => neg_infinity
  | neg_infinity => infinity
  | NaN => NaN
  end.

Definition sub (a b : number) : number := add a (opp b).

Definition is_zero (a : number) : bool :=
  match a with
  | finite z => z =? 0
  | infinity | neg_infinity | NaN => false
  end.

Definition mul (a b : number) : number :=
  match a, b with
  | finite x, finite y => double (x * y)
  | NaN, _ | _, NaN => NaN
  | _, _ =>
      if is_zero a || is_zero b then NaN
      else if xorb (negative a) (negative b) then neg_infinity else infinity
  end.

(** [a < b] and [a > b]: false as soon as one side is NaN. *)
Definition lt (a b : number) : bool :=
  match a, b with
  | finite x, finite y => x <? y
  | finite _, infinity | neg_infinity, finite _ | neg_infinity, infinity => true
  | _, _ => false
  end.

Definition gt (a b : number) : bool := lt b a.

(** [n.toString()]; an integer is written in full (below 10^21). *)
Definition toString (n : number) : string :=
  match n with
  | finite z => pretty z
  | infinity => "Infinity"
  | neg_infinity => "-Infinity"
  | NaN => "NaN"
  end.

(** [new Date(ms)], as its time value: NaN, an Invalid Date, when [ms] is
    not finite or more than 8.64e15 ms away from the epoch. Dates compare
    by their time values. *)
Definition new_Date (ms : number) : number :=
  match ms with
  | finite t => if Z.abs t <=? 8640000000000000 then finite t else NaN
  | infinity | neg_infinity | NaN => NaN
  end.

(** What a function call returns: a value, or an exception it throws. *)
Inductive outcome (A : Type) :=
| Returned (a : A)
| Thrown.
Arguments Returned {A} a.
Arguments Thrown {A}.

(** [s.split(sep)] for a one-character separator. *)
Fixpoint split (sep : ascii) (s : string) : list string :=
  match s with
  | EmptyString => [EmptyString]
  | String c rest =>
      if Ascii.eqb c sep then EmptyString :: split sep rest
      else match split sep rest with
           | [] => [String c EmptyString]
           | piece :: pieces => String c piece :: pieces
           end
  end.

(** [s.indexOf(c)]: the position of the first [c], or -1. *)
Fixpoint indexOf (c : ascii) (s : string) : Z :=
  match s with
  | EmptyString => -1
  | String d rest =>
      if Ascii.eqb d c then 0
      else let i := indexOf c rest in if i <? 0 then -1 else i + 1
  end.

Fixpoint drop_chars (n : nat) (s : string) : string :=
  match n, s with
  | O, _ => s
  | S _, EmptyString => EmptyString
  | S m, String _ rest => drop_chars m rest
  end.

(** [s.substring(start)]: a negative start counts as 0, one past the end
    gives the empty string. *)
Definition substring_from (start : Z) (s : string) : string :=
  drop_chars (Z.to_nat (Z.max 0 start)) s.

(** [parts.join(sep)]. *)
Fixpoint join (sep : string) (parts : list string) : string :=
  match parts with
  | [] => ""
  | [p] => p
  | p :: rest => p +:+ sep +:+ join sep rest
  end.

(** [array[i]] of an array of strings: [undefined] out of range. *)
Definition index (parts : list string) (i : nat) : jsval :=
  match parts !! i with
  | Some p => JString p
  | None => JUndefined
  end.

(** Hexadecimal digits, lower case ([Number.prototype.toString(16)]) and
    upper case (percent escapes). *)
Definition hex_digit_of (digits : string) (d : Z) : string :=
  match String.get (Z.to_nat d) digits with
  | Some c => String c EmptyString
  | None => ""
  end.

Definition lower_hex : Z -> string := hex_digit_of "0123456789abcdef".
Definition upper_hex : Z -> string := hex_digit_of "0123456789ABCDEF".

Fixpoint to_hex_digits (fuel : nat) (n : Z) (acc : string) : string :=
  match fuel with
  | O => acc
  | S fuel' =>
      let acc' := lower_hex (n mod 16) +:+ acc in
      if n / 16 =? 0 then acc' else to_hex_digits fuel' (n / 16) acc'
  end.

(** [num.toString(16)] for a non-negative integer. *)
Definition toString16 (num : Z) : string :=
  to_hex_digits (S (Z.to_nat (Z.log2 num))) num "".

(** The characters [encodeURIComponent] leaves alone: letters, digits and
    [- _ . ! ~ * ' ( )]. *)
Definition unreserved (c : ascii) : bool :=
  let n := Z.of_nat (nat_of_ascii c) in
  ((65 <=? n) && (n <=? 90)) || ((97 <=? n) && (n <=? 122))
  || ((48 <=? n) && (n <=? 57))
  || existsb (Ascii.eqb c) (list_ascii_of_string "-_.!~*'()").

Definition percent_escape (c : ascii) : string :=
  let n := Z.of_nat (nat_of_ascii c) in
  "%" +:+ upper_hex (n / 16) +:+ upper_hex (n mod 16).

(** [encodeURIComponent(s)]: every byte of the UTF-8 form that is not
    unreserved becomes a percent escape. *)
Fixpoint encodeURIComponent (s : string) : string :=
  match s with
  | EmptyString => EmptyString
  | String c rest =>
      (if unreserved c then String c EmptyString else percent_escape c)
      +:+ encodeURIComponent rest
  end.

(** A [Uint16Array(8)] filled by [crypto.getRandomValues]: eight entries,
    each stored modulo 2^16. *)
Definition uint16_array8 (random : list Z) : list Z :=
  map (fun i => nth i random 0 mod 65536) (seq 0 8).

(** HTTP whitespace: tab, line feed, carriage return and space. *)
Definition http_whitespace (c : ascii) : bool :=
  existsb (Ascii.eqb c)
    [ascii_of_nat 9; ascii_of_nat 10; ascii_of_nat 13; ascii_of_nat 32].

Fixpoint strip_leading (s : string) : string :=
  match s with
  | EmptyString => EmptyString
  | String c rest => if http_whitespace c then strip_leading rest else s
  end.

Fixpoint strip_trailing (s : string) : string :=
  match s with
  | EmptyString => EmptyString
  | String c rest =>
      match strip_trailing rest with
      | EmptyString =>
          if http_whitespace c then EmptyString else String c EmptyString
      | rest => String c rest
      end
  end.

(** What [Headers] makes of a value it is given (Fetch standard): a string
    with a character above U+00FF is no byte string, and a value that,
    with the whitespace at its ends removed, holds a NUL, a line feed or a
    carriage return is no header value; for both it throws a TypeError
    ([None]). Otherwise it stores the value without that whitespace. In
    the UTF-8 form of a string the characters above U+00FF are those with
    a byte from 0xC4 on. *)
Definition below_0xC4 (c : ascii) : bool := (nat_of_ascii c <? 196)%nat.

Definition nul_or_newline (c : ascii) : bool :=
  existsb (Ascii.eqb c) [ascii_of_nat 0; ascii_of_nat 10; ascii_of_nat 13].

Definition header_value (value : string) : option string :=
  if forallb below_0xC4 (list_ascii_of_string value) then
    let value := strip_trailing (strip_leading value) in
    if existsb nul_or_newline (list_ascii_of_string value) then None
    else Some value
  else None.

(** [new Headers(init)] and the [append]s after it: the header list, or
    [None] when a value makes it throw. *)
Fixpoint Headers (init : list (string * string))
  : option (list (string * string)) :=
  match init with
  | [] => Some []
  | (name, value) :: rest =>
      match header_value value, Headers rest with
      | Some value, Some rest => Some ((name, value) :: rest)
      | _, _ => None
      end
  end.

End Js.
Export Js.

(** ** What both copies of the script share *)

Module Shared.

(** [this.user]: the profile fields the script reads and writes. A field
    that was never written is [undefined]. *)
Record user_profile := {
  display_name : jsval;
  signin_name : jsval;
  domain_type : jsval;
  email : jsval;
}.

(** [this.user = {}] *)
Definition empty_user : user_profile :=
  {| display_name := JUndefined; signin_name := JUndefined;
     domain_type := JUndefined; email := JUndefined |}.

(** The fields of the [SimpleInboxStatus] instance that change. *)
Record session := {
  is_authorized : bool;
  access_token : jsval;
  id_token : jsval;
  current_nonce : jsval;
  user : user_profile;
}.

(** The instance as the constructor leaves it. *)
Definition constructor : session :=
  {| is_authorized := false; access_token := JNull; id_token := JNull;
     current_nonce := JNull; user := empty_user |}.

(** [this.manifest.oauth2] *)
Record oauth2 := {
  client_id : string;
  scopes : list string;
  api_endpoint : string;
  auth_url : string;
}.

(** The payload of an ID token as the provider issues it: the claims the
    script reads, with their JSON types ([nbf] and [exp] are seconds since
    the epoch, NaN when the claim is left out; [name] and
    [preferred_username] may be left out). *)
Record claims := {
  nonce : string;
  aud : string;
  iss : string;
  tid : string;
  nbf : number;
  exp : number;
  name : jsval;
  preferred_username : jsval;
}.

(** What the script is given by its host: the manifest (whose
    [api_endpoint] and [auth_url] are URLs), the redirect URL
    [chrome.identity.getRedirectURL('/callback')], and the [jwt_decode]
    library ([None] when it throws). None of them is code of the script. *)
Record host := {
  manifest : oauth2;
  redirect_url : string;
  jwt_decode : string -> option claims;
}.

(** One entry of the mail folder listing; [UnreadItemCount] is NaN when
    the entry has none. *)
Record folder := {
  DisplayName : string;
  UnreadItemCount : number;
}.

(** A [fetch] response with its JSON body already read: [ok] is the
    Fetch API's "status in 200..299". *)
Record response := {
  status : Z;
  value : list folder;
  EmailAddress : jsval;
}.

Definition ok (r : response) : bool :=
  (200 <=? status r) && (status r <=? 299).

(** [parse_auth_response] (chrome 311-321, part_000 260-270). The result
    is a plain object, here the map of its own properties; a later
    parameter with the same key overwrites an earlier one. An assignment
    to [__proto__] goes to the accessor of [Object.prototype], which
    stores nothing for a string or [undefined]. *)
Definition parse_param (result : gmap string jsval) (param : string)
  : gmap string jsval :=
  let param := split "="%char param in
  let key := to_string (index param 0) in
  if String.eqb key "__proto__" then result
  else <[ key := index param 1 ]> result.

Definition fragment_params (response : string) : list string :=
  split "&"%char (substring_from (indexOf "#"%char response + 1) response).

Definition parse_auth_response (response : string) : gmap string jsval :=
  fold_left parse_param (fragment_params response) ∅.

(** [result.key]: the object's own property, or else what it inherits. *)
Definition get (result : gmap string jsval) (key : string) : jsval :=
  match result !! key with
  | Some v => v
  | None => inherited key
  end.

Definition consumer_tenant : string := "9188040d-6c67-4c5b-b112-36a304b66dad".

Definition issuer_of (tenant : string) : string :=
  "https://login.microsoftonline.com/" +:+ tenant +:+ "/v2.0".

Definition set_user (s : session) (u : user_profile) : session :=
  {| is_authorized := is_authorized s; access_token := access_token s;
     id_token := id_token s; current_nonce := current_nonce s; user := u |}.

(** [validate_id_token] (chrome 333-394, part_000 282-343). [now] is the
    time value of [new Date()], in milliseconds. The result carries the
    instance, whose [user] the function writes on acceptance. A function
    with parameters passes the first test and has no [split]: the call
    throws. *)
Definition validate_id_token (h : host) (now : Z) (token : jsval) (s : session)
  : outcome (bool * session) :=
  match token with
  | JFunction _ (S _) => Thrown
  | JString (String _ _ as token) =>
      let token_parts := split "."%char token in
      if negb (length token_parts =? 3)%nat then Returned (false, s)
      else
        match jwt_decode h token with
        | None => Thrown
        | Some decoded =>
            if negb (bool_decide (JString (nonce decoded) = current_nonce s))
            then Returned (false, s)
            else if negb (String.eqb (aud decoded) (client_id (manifest h)))
            then Returned (false, s)
            else if negb (String.eqb (iss decoded) (issuer_of (tid decoded)))
            then Returned (false, s)
            else
              let notBefore := new_Date (mul (sub (nbf decoded) 300) 1000) in
              let expires := new_Date (mul (add (exp decoded) 300) 1000) in
              if lt now notBefore || gt now expires
              then Returned (false, s)
              else
                Returned (true, set_user s
                  {| display_name := name decoded;
                     signin_name := preferred_username decoded;
                     domain_type :=
                       if String.eqb (tid decoded) consumer_tenant
                       then JString "consumers" else JString "organizations";
                     email := email (user s) |})
        end
  | _ => Returned (false, s)
  end.

(** [create_nonce] (chrome 156-181, part_000 172-197). *)
Fixpoint s4_pad (fuel : nat) (ret : string) : string :=
  match fuel with
  | O => ret
  | S fuel' =>
      if (String.length ret <? 4)%nat then s4_pad fuel' ("0" +:+ ret) else ret
  end.

(** The [while] loop adds one character per round, so four rounds are
    enough for any [ret]. *)
Definition s4 (num : Z) : string := s4_pad 4 (toString16 num).

Fixpoint create_nonce_loop (index : nat) (parts : list Z) (result : string)
  : string :=
  match parts with
  | [] => result
  | part :: rest =>
      let result :=
        if (1 <? index)%nat && (index <? 6)%nat then result +:+ "-" else result in
      create_nonce_loop (S index) rest (result +:+ s4 part)
  end.

Definition create_nonce (random : list Z) : string :=
  create_nonce_loop 0 (uint16_array8 random) "".

(** [update_status_badge] (chrome 323-331, part_000 272-280): the text it
    hands to [chrome.browserAction.setBadgeText]. *)
Definition badge_text (count : number) : string :=
  let text := if gt count 0 then toString count else "" in
  if gt count 9 then "9+" else text.

(** A query object: keys in insertion order, as [Object.keys] lists them. *)
Definition query := list (string * jsval).

Fixpoint assign_key (key : string) (v : jsval) (q : query) : query :=
  match q with
  | [] => [(key, v)]
  | (k, w) :: rest =>
      if String.eqb k key then (k, v) :: rest
      else (k, w) :: assign_key key v rest
  end.

(** [Object.assign(target, source)]: a key of [target] keeps its place, a
    new key goes to the end. *)
Definition object_assign (target source : query) : query :=
  fold_left (fun t kv => assign_key (fst kv) (snd kv) t) source target.

Definition keys (q : query) : list string := map fst q.

(** [query[key]] *)
Fixpoint query_get (q : query) (key : string) : jsval :=
  match q with
  | [] => JUndefined
  | (k, v) :: rest => if String.eqb k key then v else query_get rest key
  end.

(** The second argument of [fetch]. *)
Record request_info := {
  credentials : option string;
  method : string;
  headers : list (string * string);
  body : option query;
}.

(** What a handler does to the world outside the instance, in order.
    [uncaught] is an exception that nothing catches: it ends the function
    that threw it and every function that was awaiting that one. *)
Inductive effect :=
| fetch (url : string) (info : request_info)
| launchWebAuthFlow (url : string) (interactive : bool)
| storage_sync_set (data : session)
| setBadgeText (text : string)
| console_error (message : string)
| console_log_response (r : response)
| console_log_this (s : session)
| window_open (url : string)
| uncaught.

Definition is_fetch (e : effect) : bool :=
  match e with fetch _ _ => true | _ => false end.

(** What [crypto.getRandomValues] and [new Date()] give a handler: the
    random words for the nonce and for the state, and the time in
    milliseconds. *)
Record moment := {
  nonce_random : list Z;
  state_random : list Z;
  now : Z;
}.

(** What the web auth flow hands to its callback: [chrome.runtime.lastError]
    set, or the redirect URL. *)
Inductive auth_result :=
| lastError (message : string)
| redirect (result : string).

Definition set_current_nonce (s : session) (n : jsval) : session :=
  {| is_authorized := is_authorized s; access_token := access_token s;
     id_token := id_token s; current_nonce := n; user := user s |}.

Definition set_tokens (s : session) (id access : jsval) : session :=
  {| is_authorized := true; access_token := access; id_token := id;
     current_nonce := current_nonce s; user := user s |}.

Definition set_email (s : session) (e : jsval) : session :=
  set_user s
    {| display_name := display_name (user s);
       signin_name := signin_name (user s);
       domain_type := domain_type (user s); email := e |}.

(** [await this.make_remote_request(...)]: the function waits as [t] for
    the response; when building the request threw, it ends there. *)
Definition await_request (request : effect) {task : Type} (t : task)
  : list effect * list task :=
  ([request], if is_fetch request then [t] else []).

(** What [chrome.storage.sync] keeps of a value: [undefined] is not
    written at all, a function or an object without properties is written
    as [{}]. *)
Definition stored_value (v : jsval) : option jsval :=
  match v with
  | JUndefined => None
  | JFunction _ _ | JObject => Some JObject
  | JNull | JString _ => Some v
  end.

(** [this.user] as the store keeps it: a field that is not written reads
    as [undefined]. *)
Definition stored_user (u : user_profile) : user_profile :=
  {| display_name := default JUndefined (stored_value (display_name u));
     signin_name := default JUndefined (stored_value (signin_name u));
     domain_type := default JUndefined (stored_value (domain_type u));
     email := default JUndefined (stored_value (email u)) |}.

(** [chrome.storage.sync.set(data)] with the script's five keys. The store
    is written here as the record that [chrome.storage.sync.get] with the
    constructor's values as defaults reads from it ([None]: nothing was
    ever written). A key whose value is not written keeps what the store
    had for it. *)
Definition stored_record (old data : session) : session :=
  {| is_authorized := is_authorized data;
     access_token :=
       default (access_token old) (stored_value (access_token data));
     id_token := default (id_token old) (stored_value (id_token data));
     current_nonce :=
       default (current_nonce old) (stored_value (current_nonce data));
     user := stored_user (user data) |}.

Definition storage_sync_write (store : option session) (data : session)
  : option session :=
  Some (stored_record (default constructor store) data).

(** The store after the writes among [effects]. *)
Definition written (effects : list effect) (store : option session)
  : option session :=
  fold_left
    (fun store e =>
       match e with
       | storage_sync_set data => storage_sync_write store data
       | _ => store
       end)
    effects store.

End Shared.
Export Shared.

(** ** src/chrome/src/background.js *)

Module Chrome.

Definition mail_folders_url (h : host) : string :=
  api_endpoint (manifest h) +:+ "/me/MailFolders?".

Definition me_url (h : host) : string :=
  api_endpoint (manifest h) +:+ "/me".

(** [generate_request_url] (263-272). *)
Definition generate_request_url (url : string) (query_data : query) : string :=
  let keys := keys query_data in
  fold_left
    (fun url key =>
       let sep := if bool_decide (JString key = index keys (length keys - 1))
                  then "" else "&" in
       url +:+ key +:+ "=" +:+ to_string (query_get query_data key) +:+ sep)
    keys url.

(** [make_remote_request] (274-295): the [fetch] it performs, or the
    exception of [Headers], which rejects the promise of this [async]
    function. *)
Definition make_remote_request (s : session) (url : string)
    (body : option query) : effect :=
  let headers :=
    [("Authorization", "Bearer " +:+ to_string (access_token s));
     ("Accept", "application/json")] in
  let headers :=
    if truthy (email (user s))
    then (headers ++ [("x-AnchorMailbox", to_string (email (user s)))])%list
    else headers in
  match Headers headers with
  | Some headers =>
      fetch url
        {| credentials := None;
           method := match body with Some _ => "POST" | None => "GET" end;
           headers := headers; body := body |}
  | None => uncaught
  end.

(** The query object [authorize] builds (104-131). *)
Definition authorize_query (h : host) (m : moment) (interactive : bool)
    (s : session) : query :=
  let scope := join " " (scopes (manifest h)) in
  let query :=
    [("client_id", JString (client_id (manifest h)));
     ("redirect_uri", JString (encodeURIComponent (redirect_url h)));
     ("response_type", JString (encodeURIComponent "id_token token"));
     ("scope", JString (encodeURIComponent scope));
     ("response_mode", JString "fragment");
     ("nonce", JString (create_nonce (nonce_random m)));
     ("state", JString (create_nonce (state_random m)))] in
  if negb interactive then
    object_assign query
      [("response_type", JString "token"); ("prompt", JString "none");
       ("domain_hint", domain_type (user s));
       ("login_hint", signin_name (user s))]
  else if truthy (domain_type (user s)) && truthy (signin_name (user s)) then
    object_assign query
      [("domain_hint", domain_type (user s));
       ("login_hint", signin_name (user s))]
  else query.

(** [authorize] (103-140) up to the point where the promise is returned:
    the nonce is stored and the web auth flow is launched. Its callback,
    [finish_auth], runs in a later turn. *)
Definition authorize (h : host) (m : moment) (interactive : bool)
    (s : session) : session * effect :=
  let query := authorize_query h m interactive s in
  let s := set_current_nonce s (query_get query "nonce") in
  let request_url := generate_request_url (auth_url (manifest h)) query in
  (s, launchWebAuthFlow request_url interactive).

(** [calculate_total_unread_messages] (142-154). *)
Fixpoint calculate_total_unread_messages_from (count : number)
    (mail_folders : list folder) : number :=
  match mail_folders with
  | [] => count
  | folder :: rest =>
      if String.eqb "Archive" (DisplayName folder)
      then calculate_total_unread_messages_from count rest
      else calculate_total_unread_messages_from
             (add count (UnreadItemCount folder)) rest
  end.

Definition calculate_total_unread_messages (mail_folders : list folder)
  : number :=
  calculate_total_unread_messages_from 0 mail_folders.

(** The places where an [async] function of the script is suspended. A
    task is resumed, in a turn of its own, when what it waits for arrives. *)
Inductive task :=
| first_response
    (* fetch_message_count at line 195 *)
| retried_response
    (* fetch_message_count at line 203 *)
| auth_flow (interactive : bool) (awaited : bool)
    (* launchWebAuthFlow at line 138; [awaited]: fetch_message_count waits
       for the promise at line 201 *)
| me_response (awaited : bool)
    (* finish_auth at line 243 *)
| storage_set.
    (* chrome.storage.sync.set at line 258 *)

(** What one turn of the event loop leaves: the instance, what was done,
    and the tasks newly suspended. *)
Definition turn : Type := session * list effect * list task.

(** The query of [fetch_message_count] (188-191). *)
Definition mail_query : query :=
  [("$filter", JString (encodeURIComponent "UnreadItemCount gt 0"));
   ("$top", JString "50")].

(** [fetch_message_count] (183-217), from its call to its first [await]. *)
Definition fetch_message_count (h : host) (s : session) : turn :=
  if negb (is_authorized s) then (s, [], [])
  else
    let url := generate_request_url (mail_folders_url h) mail_query in
    let '(effects, tasks) :=
      await_request (make_remote_request s url None) first_response in
    (s, effects, tasks).

(** Lines 206-216: what is done with the last response. *)
Definition fetch_message_count_finish (response : response) (s : session)
  : turn :=
  if negb (ok response) then
    (s, [console_error "Fetch message count failed!";
         console_log_response response], [])
  else
    let count := calculate_total_unread_messages (value response) in
    (s, [setBadgeText (badge_text count)], []).

(** Lines 196-204, resumed with the first response. *)
Definition fetch_message_count_first (h : host) (m : moment)
    (response : response) (s : session) : turn :=
  if negb (ok response) && (status response <? 500) then
    let interactive := false in
    let '(s, launch) := authorize h m interactive s in
    (s, [launch], [auth_flow interactive true])
  else fetch_message_count_finish response s.

(** Line 203, resumed when the promise of [authorize] is resolved. *)
Definition fetch_message_count_retry (h : host) (s : session)
  : list effect * list task :=
  await_request
    (make_remote_request s (mail_folders_url h) (Some mail_query))
    retried_response.

(** [callback()] in [finish_auth]: resolves the promise; the function that
    awaits it, if any, goes on within the same turn. *)
Definition callback (h : host) (awaited : bool) (s : session)
  : list effect * list task :=
  if awaited then fetch_message_count_retry h s else ([], []).

(** [finish_auth] (219-261), from its call to its [await] at line 243. *)
Definition finish_auth (h : host) (m : moment) (result : auth_result)
    (interactive : bool) (awaited : bool) (s : session) : turn :=
  match result with
  | lastError message =>
      let '(effects, tasks) := callback h awaited s in
      (s, console_error message :: effects, tasks)
  | redirect result =>
      let result := parse_auth_response result in
      match validate_id_token h (now m) (get result "id_token") s with
      | Thrown => (s, [uncaught], [])
      | Returned (false, s) =>
          if negb interactive then
            let '(s, launch) := authorize h m true s in
            (s, [launch], [auth_flow true false])
          else
            (s, [console_error ("Authorization failed: "
                                +:+ to_string (get result "error_message"))],
             [])
      | Returned (true, s) =>
          let s := set_tokens s (get result "id_token")
                     (get result "access_token") in
          let '(effects, tasks) :=
            await_request (make_remote_request s (me_url h) None)
              (me_response awaited) in
          (s, effects, tasks)
      end
  end.

(** [finish_auth] from line 245 to its end. *)
Definition finish_auth_me (h : host) (awaited : bool) (result : response)
    (s : session) : turn :=
  let s := if ok result then set_email s (EmailAddress result) else s in
  let '(effects, tasks) := callback h awaited s in
  (s, storage_sync_set s :: effects, storage_set :: tasks).

(** [onClicked] (297-304). *)
Definition onClicked (h : host) (m : moment) (s : session) : turn :=
  if negb (is_authorized s) then
    let '(s, launch) := authorize h m true s in
    (s, [launch], [auth_flow true false])
  else (s, [window_open "https://outlook.live.com/owa"], []).

(** The callback of [chrome.storage.sync.get] in [initialize] (79-101):
    the stored record, or the defaults where nothing was stored. *)
Definition initialize (stored : option session) (s : session) : session :=
  let data := default s stored in
  {| is_authorized := is_authorized data; access_token := access_token data;
     id_token := id_token data; current_nonce := current_nonce data;
     user := user data |}.

(** *** The script as a machine

    The background page handles one event at a time. Between events it
    holds the instance, the tasks that wait for the world, and what
    [chrome.storage.sync] holds. *)

Record state := {
  this : session;
  pending : list task;
  store : option session;
}.

(** What can arrive for a waiting task. *)
Inductive arrival :=
| http (r : response)
| auth (r : auth_result)
| stored.

(** The events the page handles. *)
Inductive event :=
| alarm
    (* chrome.alarms.onAlarm: fetch_message_count *)
| click
    (* chrome.browserAction.onClicked: onClicked *)
| arrives (i : nat) (a : arrival)
    (* the i-th waiting task is resumed *)
| reload.
    (* the page is started anew: constructor, then initialize *)

(** The handler a waiting task runs when it is resumed. *)
Definition resume (h : host) (m : moment) (t : task) (a : arrival)
    (s : session) : option turn :=
  match t, a with
  | first_response, http r => Some (fetch_message_count_first h m r s)
  | retried_response, http r => Some (fetch_message_count_finish r s)
  | auth_flow interactive awaited, auth r =>
      Some (finish_auth h m r interactive awaited s)
  | me_response awaited, http r => Some (finish_auth_me h awaited r s)
  | storage_set, stored => Some (fetch_message_count h s)
  | _, _ => None
  end.

Definition after (st : state) (waiting : list task) (t : turn)
  : state * list effect :=
  let '(s, effects, tasks) := t in
  ({| this := s; pending := (waiting ++ tasks)%list;
      store := written effects (store st) |}, effects).

(** The page right after it is started, with [stored] in the store. *)
Definition boot (stored : option session) : state :=
  {| this := initialize stored constructor; pending := []; store := stored |}.

Definition step (h : host) (m : moment) (e : event) (st : state)
  : state * list effect :=
  match e with
  | alarm => after st (pending st) (fetch_message_count h (this st))
  | click => after st (pending st) (onClicked h m (this st))
  | arrives i a =>
      match pending st !! i with
      | Some t =>
          match resume h m t a (this st) with
          | Some t' => after st (delete i (pending st)) t'
          | None => (st, [])
          end
      | None => (st, [])
      end
  | reload => (boot (store st), [])
  end.

(** The page handling a list of events, each at its moment: the state it
    ends in and everything it did, in order. *)
Fixpoint run (h : host) (events : list (moment * event)) (st : state)
  : state * list effect :=
  match events with
  | [] => (st, [])
  | (m, e) :: rest =>
      let '(st, done) := step h m e st in
      let '(st, more) := run h rest st in
      (st, (done ++ more)%list)
  end.

(** The states the page can be in, from a first start with an empty store. *)
Inductive reachable (h : host) : state -> Prop :=
| reachable_boot : reachable h (boot None)
| reachable_step m e st :
    reachable h st -> reachable h (fst (step h m e st)).

End Chrome.

(** ** src/unnamed/part_000 *)

Module Part000.

Definition mail_folders_url (h : host) : string :=
  api_endpoint (manifest h) +:+ "/me/MailFolders".

(** [make_remote_request] (228-244): the [fetch] it performs, or the
    exception of [Headers]. *)
Definition make_remote_request (s : session) (url : string)
    (body : option query) : effect :=
  match
    Headers [("Authorization", "Bearer " +:+ to_string (access_token s));
             ("Accept", "application/json")]
  with
  | Some headers =>
      fetch url
        {| credentials := Some "include";
           method := match body with Some _ => "POST" | None => "GET" end;
           headers := headers; body := body |}
  | None => uncaught
  end.

(** The query object [authorize] builds (104-119). *)
Definition authorize_query (h : host) (m : moment) (interactive : bool)
    (s : session) : query :=
  let scope := join " " (scopes (manifest h)) in
  let query :=
    [("client_id", JString (client_id (manifest h)));
     ("redirect_url", JString (encodeURIComponent (redirect_url h)));
     ("response_type", JString "id_token token");
     ("scope", JString (encodeURIComponent scope));
     ("response_mode", JString "fragment");
     ("nonce", JString (create_nonce (nonce_random m)))] in
  if negb interactive then
    object_assign query
      [("prompt", JString "none");
       ("domain_hint", domain_type (user s));
       ("login_hint", signin_name (user s))]
  else query.

(** The loop at 125-127. *)
Definition request_url_of (url : string) (query : query) : string :=
  fold_left
    (fun request_url key =>
       request_url +:+ key +:+ "=" +:+ to_string (query_get query key) +:+ "&")
    (keys query) url.

(** [authorize] (101-160) up to its return: the web auth flow is launched
    and its callback runs in a later turn. *)
Definition authorize (h : host) (m : moment) (interactive : bool)
    (s : session) : session * effect :=
  let query := authorize_query h m interactive s in
  let s := set_current_nonce s (query_get query "nonce") in
  let request_url := request_url_of (auth_url (manifest h)) query in
  (s, launchWebAuthFlow request_url interactive).

(** [calculate_total_unread_messages] (162-170). *)
Fixpoint calculate_total_unread_messages_from (count : number)
    (mail_folders : list folder) : number :=
  match mail_folders with
  | [] => count
  | folder :: rest =>
      calculate_total_unread_messages_from
        (add count (UnreadItemCount folder)) rest
  end.

Definition calculate_total_unread_messages (mail_folders : list folder)
  : number :=
  calculate_total_unread_messages_from 0 mail_folders.

(** The places where the script waits for the world. *)
Inductive task :=
| first_response
    (* fetch_message_count at line 204 *)
| retried_response
    (* fetch_message_count at line 212 *)
| auth_flow (interactive : bool).
    (* launchWebAuthFlow at line 131 *)

Definition turn : Type := session * list effect * list task.

(** [fetch_message_count] (199-226), from its call to its first [await]. *)
Definition fetch_message_count (h : host) (s : session) : turn :=
  if negb (is_authorized s) then (s, [], [])
  else
    let '(effects, tasks) :=
      await_request (make_remote_request s (mail_folders_url h) None)
        first_response in
    (s, effects, tasks).

(** Lines 215-225. *)
Definition fetch_message_count_finish (response : response) (s : session)
  : turn :=
  if negb (ok response) then
    (s, [console_error "Fetch message count failed!";
         console_log_response response], [])
  else
    let count := calculate_total_unread_messages (value response) in
    (s, [setBadgeText (badge_text count)], []).

(** Lines 206-213, resumed with the first response: [authorize] is called
    and not waited for, and the request is made again at once. *)
Definition fetch_message_count_first (h : host) (m : moment)
    (response : response) (s : session) : turn :=
  if negb (ok response) && (status response <? 500) then
    let interactive := false in
    let '(s, launch) := authorize h m interactive s in
    let '(effects, tasks) :=
      await_request (make_remote_request s (mail_folders_url h) None)
        retried_response in
    (s, launch :: effects, auth_flow interactive :: tasks)
  else fetch_message_count_finish response s.

(** The callback handed to [launchWebAuthFlow] (131-159). *)
Definition auth_callback (h : host) (m : moment) (result : auth_result)
    (s : session) : turn :=
  match result with
  | lastError message => (s, [console_error message], [])
  | redirect result =>
      let result := parse_auth_response result in
      match validate_id_token h (now m) (get result "id_token") s with
      | Thrown => (s, [uncaught], [])
      | Returned (false, s) =>
          (s, [console_error "Id token validation failed!"], [])
      | Returned (true, s) =>
          let s := set_tokens s (get result "id_token")
                     (get result "access_token") in
          let '(s', effects, tasks) := fetch_message_count h s in
          (s', console_log_this s :: storage_sync_set s :: effects, tasks)
      end
  end.

(** [onClicked] (246-253). *)
Definition onClicked (h : host) (m : moment) (s : session) : turn :=
  if is_authorized s then (s, [window_open "https://outlook.com/"], [])
  else
    let '(s, launch) := authorize h m true s in
    (s, [launch], [auth_flow true]).

(** The callback of [chrome.storage.sync.get] in [initialize] (77-99). *)
Definition initialize (stored : option session) (s : session) : session :=
  let data := default s stored in
  {| is_authorized := is_authorized data; access_token := access_token data;
     id_token := id_token data; current_nonce := current_nonce data;
     user := user data |}.

(** *** The script as a machine, as for the chrome copy *)

Record state := {
  this : session;
  pending : list task;
  store : option session;
}.

Inductive arrival :=
| http (r : response)
| auth (r : auth_result).

Inductive event :=
| alarm
| click
| arrives (i : nat) (a : arrival)
| reload.

Definition resume (h : host) (m : moment) (t : task) (a : arrival)
    (s : session) : option turn :=
  match t, a with
  | first_response, http r => Some (fetch_message_count_first h m r s)
  | retried_response, http r => Some (fetch_message_count_finish r s)
  | auth_flow interactive, auth r => Some (auth_callback h m r s)
  | _, _ => None
  end.

Definition after (st : state) (waiting : list task) (t : turn)
  : state * list effect :=
  let '(s, effects, tasks) := t in
  ({| this := s; pending := (waiting ++ tasks)%list;
      store := written effects (store st) |}, effects).

Definition boot (stored : option session) : state :=
  {| this := initialize stored constructor; pending := []; store := stored |}.

Definition step (h : host) (m : moment) (e : event) (st : state)
  : state * list effect :=
  match e with
  | alarm => after st (pending st) (fetch_message_count h (this st))
  | click => after st (pending st) (onClicked h m (this st))
  | arrives i a =>
      match pending st !! i with
      | Some t =>
          match resume h m t a (this st) with
          | Some t' => after st (delete i (pending st)) t'
          | None => (st, [])
          end
      | None => (st, [])
      end
  | reload => (boot (store st), [])
  end.

Inductive reachable (h : host) : state -> Prop :=
| reachable_boot : reachable h (boot None)
| reachable_step m e st :
    reachable h st -> reachable h (fst (step h m e st)).

End Part000.

(** ** The vocabulary of the statements *)

(** The sum of numbers as JavaScript adds them up, from the first on. *)
Definition sum_of (numbers : list number) : number :=
  fold_left add numbers (finite 0).

(** The sum of [UnreadItemCount] over the folders not named "Archive". *)
Definition unread_outside_archive (mail_folders : list folder) : number :=
  sum_of
    (map UnreadItemCount
       (List.filter (fun f => negb (String.eqb (DisplayName f) "Archive"))
          mail_folders)).

(** The sum of [UnreadItemCount] over all the folders. *)
Definition unread_in_all (mail_folders : list folder) : number :=
  sum_of (map UnreadItemCount mail_folders).

(** A token field is set when it holds a token, a string. *)
Definition is_set (v : jsval) : Prop := exists t, v = JString t.

(** Both tokens are set, or both are null. *)
Definition tokens_set_together (s : session) : Prop :=
  (is_set (access_token s) /\ is_set (id_token s))
  \/ (access_token s = JNull /\ id_token s = JNull).

(** Both tokens are null, or [id_token] is set: [access_token] is not set
    without [id_token]. *)
Definition tokens_paired (s : session) : Prop :=
  (access_token s = JNull /\ id_token s = JNull)
  \/ (exists t, id_token s = JString t /\ t <> "").

(** [c] does not occur in [s]. *)
Fixpoint free_of (c : ascii) (s : string) : Prop :=
  match s with
  | EmptyString => True
  | String d rest => d <> c /\ free_of c rest
  end.

(** The key under which [parse_auth_response] files a parameter. *)
Definition param_key (param : string) : string :=
  to_string (index (split "="%char param) 0).

(** [h] with another [jwt_decode]. *)
Definition with_decoder (h : host) (decode : string -> option claims) : host :=
  {| manifest := manifest h; redirect_url := redirect_url h;
     jwt_decode := decode |}.

(** The two dates of the time check, as the script builds them. *)
Definition notBefore (d : claims) : number :=
  new_Date (mul (sub (nbf d) 300) 1000).

Definition expires (d : claims) : number :=
  new_Date (mul (add (exp d) 300) 1000).

(** The four checks on the decoded payload, as one proposition. The time
    check is the script's own: the time is neither before [notBefore] nor
    after [expires], which is so whenever the date is an Invalid Date. *)
Definition payload_checks (h : host) (now : Z) (s : session) (d : claims)
  : Prop :=
  current_nonce s = JString (nonce d)
  /\ aud d = client_id (manifest h)
  /\ iss d = "https://login.microsoftonline.com/" +:+ tid d +:+ "/v2.0"
  /\ lt now (notBefore d) = false /\ gt now (expires d) = false.

(** The profile that acceptance writes. *)
Definition accepted_user (s : session) (d : claims) : user_profile :=
  {| display_name := name d; signin_name := preferred_username d;
     domain_type :=
       if String.eqb (tid d) consumer_tenant
       then JString "consumers" else JString "organizations";
     email := email (user s) |}.

(** The record a handler hands to the store has its tokens paired. *)
Definition writes_paired (effects : list effect) : Prop :=
  Forall (fun e => match e with
                   | storage_sync_set data => tokens_paired data
                   | _ => True
                   end) effects.

Definition turn_paired (t : Chrome.turn) : Prop :=
  tokens_paired (fst (fst t)) /\ writes_paired (snd (fst t)).

(** What the page keeps true from one event to the next. *)
Definition state_paired (st : Chrome.state) : Prop :=
  tokens_paired (Chrome.this st)
  /\ forall data, Chrome.store st = Some data -> tokens_paired data.

(** The same for part_000. *)
Definition part000_turn_paired (t : Part000.turn) : Prop :=
  tokens_paired (fst (fst t)) /\ writes_paired (snd (fst t)).

Definition part000_state_paired (st : Part000.state) : Prop :=
  tokens_paired (Part000.this st)
  /\ forall data, Part000.store st = Some data -> tokens_paired data.

(** Follows the spec's words: the AuthQuery of an attempt, its values as
    they are before any encoding. *)
Definition AuthQuery (h : host) (m : moment) (interactive : bool)
    (s : session) : query :=
  let query :=
    [("client_id", JString (client_id (manifest h)));
     ("redirect_uri", JString (redirect_url h));
     ("response_type", JString "id_token token");
     ("scope", JString (join " " (scopes (manifest h))));
     ("response_mode", JString "fragment");
     ("nonce", JString (create_nonce (nonce_random m)));
     ("state", JString (create_nonce (state_random m)))] in
  if negb interactive then
    object_assign query
      [("response_type", JString "token"); ("prompt", JString "none");
       ("domain_hint", domain_type (user s));
       ("login_hint", signin_name (user s))]
  else if truthy (domain_type (user s)) && truthy (signin_name (user s)) then
    object_assign query
      [("domain_hint", domain_type (user s));
       ("login_hint", signin_name (user s))]
  else query.

(** Follows the spec's words: every value percent-encoded, once. *)
Definition percent_encoded_once (q : query) : query :=
  map (fun kv => (fst kv, JString (encodeURIComponent (to_string (snd kv))))) q.

(** The URL of an attempt as the spec describes it. *)
Definition encoded_request_url (h : host) (m : moment) (interactive : bool)
    (s : session) : string :=
  Chrome.generate_request_url (auth_url (manifest h))
    (percent_encoded_once (AuthQuery h m interactive s)).

(** ** More vocabulary: nonces, serialized queries, what a turn may change *)

(** A lower-case hexadecimal digit, and its value. *)
Definition is_lower_hex (c : ascii) : bool :=
  let n := Z.of_nat (nat_of_ascii c) in
  ((48 <=? n) && (n <=? 57)) || ((97 <=? n) && (n <=? 102)).

Definition hex_value (c : ascii) : Z :=
  let n := Z.of_nat (nat_of_ascii c) in
  if n <=? 57 then n - 48 else n - 87.

(** [s] is four lower-case hexadecimal digits that spell [n]. *)
Definition spells4 (s : string) (n : Z) : bool :=
  match s with
  | String a (String b (String c (String d EmptyString))) =>
      is_lower_hex a && is_lower_hex b && is_lower_hex c && is_lower_hex d
      && (((hex_value a * 16 + hex_value b) * 16 + hex_value c) * 16
          + hex_value d =? n)
  | _ => false
  end.

(** The place of each character of a nonce: a hyphen (true) or a digit. *)
Definition nonce_layout : list bool :=
  (repeat false 8 ++ [true] ++ repeat false 4 ++ [true] ++ repeat false 4
   ++ [true] ++ repeat false 4 ++ [true] ++ repeat false 12)%list.

Fixpoint laid_out (layout : list bool) (s : string) : bool :=
  match layout, s with
  | [], EmptyString => true
  | hyphen :: layout, String c s =>
      (if hyphen then Ascii.eqb c "-" else is_lower_hex c)
      && laid_out layout s
  | _, _ => false
  end.

Definition hex_number (s : string) : Z :=
  fold_left (fun n c => n * 16 + hex_value c) (list_ascii_of_string s) 0.

(** The eight words a nonce spells, group by group. *)
Definition nonce_words (nonce : string) : list Z :=
  map (fun start => hex_number (String.substring start 4 nonce))
    [0; 4; 9; 14; 19; 24; 28; 32]%nat.

(** One [key=value] pair of a serialized query. *)
Definition pair_text (kv : string * jsval) : string :=
  fst kv +:+ "=" +:+ to_string (snd kv).

(** What one turn of the chrome copy may do to the instance: leave it,
    store a new nonce, store the e-mail address, or take the tokens and the
    profile of a redirect whose ID token it accepted. *)
Inductive session_moves (h : host) (m : moment) (s : session)
  : session -> Prop :=
| moves_nothing : session_moves h m s s
| moves_nonce :
    session_moves h m s
      (set_current_nonce s (JString (create_nonce (nonce_random m))))
| moves_email (address : jsval) : session_moves h m s (set_email s address)
| moves_tokens (t : string) (d : claims) (access : jsval) :
    t <> "" -> length (split "."%char t) = 3%nat ->
    jwt_decode h t = Some d -> payload_checks h (now m) s d ->
    session_moves h m s
      (set_tokens (set_user s (accepted_user s d)) (JString t) access).

(** Every record among [effects] that goes to the store is [s]. *)
Definition writes_only (s : session) (effects : list effect) : Prop :=
  Forall (fun e => match e with
                   | storage_sync_set data => data = s
                   | _ => True
                   end) effects.

(** The profile's [domain_type] is one the script knows. *)
Definition known_domain_type (v : jsval) : Prop :=
  v = JUndefined \/ v = JString "consumers" \/ v = JString "organizations".

(** What one turn leaves: the instance moved in one of the four ways, and
    nothing but that instance written to the store. *)
Definition turn_moves (h : host) (m : moment) (s : session)
    (t : Chrome.turn) : Prop :=
  session_moves h m s (fst (fst t))
  /\ writes_only (fst (fst t)) (snd (fst t)).

(** Counts as the mail API sends them: integers from 0 on. Their total
    in exact arithmetic, which JavaScript's sum is as long as it does not
    pass 2^53. *)
Definition whole_counts (mail_folders : list folder) : Prop :=
  Forall (fun f => exists c, UnreadItemCount f = finite c /\ 0 <= c)
    mail_folders.

Definition count_of (f : folder) : Z :=
  match UnreadItemCount f with
  | finite c => c
  | infinity | neg_infinity | NaN => 0
  end.

Definition exact_total (mail_folders : list folder) : Z :=
  foldr Z.add 0 (map count_of mail_folders).

(** The sum of [UnreadItemCount] over the folders named "Archive". *)
Definition unread_in_archive (mail_folders : list folder) : number :=
  sum_of
    (map UnreadItemCount
       (List.filter (fun f => String.eqb (DisplayName f) "Archive")
          mail_folders)).

(** Every character of [s] is one that [encodeURIComponent] leaves alone,
    or the '%' of an escape. *)
Definition url_safe (s : string) : bool :=
  forallb (fun c => unreserved c || Ascii.eqb c "%")
    (list_ascii_of_string s).

(** [encodeURIComponent] of each of the [count] characters from code
    [from] on is safe. *)
Fixpoint escapes_safe_from (count from : nat) : bool :=
  match count with
  | O => true
  | S count' =>
      url_safe (encodeURIComponent (String (ascii_of_nat from) EmptyString))
      && escapes_safe_from count' (S from)
  end.

(** A pair that a query string can carry and [parse_auth_response] can
    read back: a key and a string value without '&' and '='. *)
Definition plain_pair (kv : string * jsval) : Prop :=
  free_of "&"%char (fst kv) /\ free_of "="%char (fst kv)
  /\ exists v, snd kv = JString v
               /\ free_of "&"%char v /\ free_of "="%char v.



(** Every byte of [s] is a visible ASCII character, from '!' to '~'. *)
Definition visible_ascii (s : string) : bool :=
  forallb
    (fun c => (32 <? nat_of_ascii c)%nat && (nat_of_ascii c <? 127)%nat)
    (list_ascii_of_string s).

(** The headers that [make_remote_request] of the chrome copy hands to
    [Headers], and those of part_000. *)
Definition chrome_headers (s : session) : list (string * string) :=
  ([("Authorization", "Bearer " +:+ to_string (access_token s));
    ("Accept", "application/json")]
   ++ (if truthy (email (user s))
       then [("x-AnchorMailbox", to_string (email (user s)))]
       else []))%list.

Definition part000_headers (s : session) : list (string * string) :=
  [("Authorization", "Bearer " +:+ to_string (access_token s));
   ("Accept", "application/json")].

(** ** A concrete host, for running the script *)

Module Demo.

Definition zero_nonce : string := "00000000-0000-0000-0000-000000000000".

Definition payload : claims :=
  {| nonce := zero_nonce; aud := "client"; tid := "tenant";
     iss := "https://login.microsoftonline.com/tenant/v2.0";
     nbf := 1000; exp := 2000;
     name := JString "Ann"; preferred_username := JString "ann@example.com" |}.

(** The same payload with dates beyond the last day that a [Date] holds
    (8.64e15 ms after the epoch): not valid before one second after that
    day's last second. Then the one that is not valid before that last
    second, and the one without dates. *)
Definition far_future : claims :=
  {| nonce := zero_nonce; aud := "client"; tid := "tenant";
     iss := "https://login.microsoftonline.com/tenant/v2.0";
     nbf := 8640000000301; exp := 8640000003901;
     name := JString "Ann"; preferred_username := JString "ann@example.com" |}.

Definition last_day : claims :=
  {| nonce := zero_nonce; aud := "client"; tid := "tenant";
     iss := "https://login.microsoftonline.com/tenant/v2.0";
     nbf := 8640000000300; exp := 8640000003901;
     name := JString "Ann"; preferred_username := JString "ann@example.com" |}.

Definition undated : claims :=
  {| nonce := zero_nonce; aud := "client"; tid := "tenant";
     iss := "https://login.microsoftonline.com/tenant/v2.0";
     nbf := NaN; exp := NaN;
     name := JString "Ann"; preferred_username := JString "ann@example.com" |}.

(** A decoder that knows four tokens. *)
Definition decode (token : string) : option claims :=
  if String.eqb token "h.p.s" then Some payload
  else if String.eqb token "far.future.s" then Some far_future
  else if String.eqb token "last.day.s" then Some last_day
  else if String.eqb token "no.dates.s" then Some undated
  else None.

Definition the_host : host :=
  {| manifest :=
       {| client_id := "client"; scopes := ["openid"; "mail.read"];
          api_endpoint := "https://api"; auth_url := "https://login/authorize?" |};
     redirect_url := "https://ext/callback";
     jwt_decode := decode |}.

Definition noon : moment :=
  {| nonce_random := []; state_random := [1; 2; 3]; now := 1500000 |}.

Definition ann : user_profile :=
  {| display_name := JString "Ann"; signin_name := JString "ann@example.com";
     domain_type := JString "organizations";
     email := JString "ann@example.com" |}.

(** An authorized instance whose access token the mail API no longer
    takes. *)
Definition signed_in : session :=
  {| is_authorized := true; access_token := JString "stale";
     id_token := JString "h.p.s"; current_nonce := JString zero_nonce;
     user := ann |}.

Definition unauthorized_401 : response :=
  {| status := 401; value := []; EmailAddress := JUndefined |}.

(** The folders of the spec's example. *)
Definition three_folders : list folder :=
  [ {| DisplayName := "Archive"; UnreadItemCount := 5 |};
    {| DisplayName := "Inbox"; UnreadItemCount := 3 |};
    {| DisplayName := "Sent"; UnreadItemCount := 0 |} ].

(** A first start, a click, and a redirect that carries a valid ID token
    and no access token. *)
Definition id_token_only : list (moment * Chrome.event) :=
  [(noon, Chrome.click);
   (noon,
    Chrome.arrives 0
      (Chrome.auth (redirect "https://ext/callback#id_token=h.p.s")))].

(** A first start and a full sign-in; then a poll that is answered 401,
    the silent attempt that follows it, whose redirect has no token, and
    so an interactive attempt, left waiting. *)
Definition profile_answer : response :=
  {| status := 200; value := []; EmailAddress := JString "ann@example.com" |}.

Definition failed_silent_attempt : list (moment * Chrome.event) :=
  [(noon, Chrome.click);
   (noon,
    Chrome.arrives 0
      (Chrome.auth
         (redirect "https://ext/callback#access_token=fresh&id_token=h.p.s")));
   (noon, Chrome.arrives 0 (Chrome.http profile_answer));
   (noon, Chrome.arrives 0 Chrome.stored);
   (noon, Chrome.arrives 0 (Chrome.http unauthorized_401));
   (noon,
    Chrome.arrives 0
      (Chrome.auth (redirect "https://ext/callback#error=login_required")))].

End Demo.

(** ** Unread totals *)

Lemma chrome_total_from (count : number) (mail_folders : list folder) :
  Chrome.calculate_total_unread_messages_from count mail_folders
  = fold_left add
      (map UnreadItemCount
         (List.filter (fun f => negb (String.eqb (DisplayName f) "Archive"))
            mail_folders))
      count.
Proof.
  revert count.
  induction mail_folders as [|f rest IH]; intros count; [reflexivity|].
  cbn [Chrome.calculate_total_unread_messages_from List.filter].
  rewrite String.eqb_sym.
  destruct (String.eqb (DisplayName f) "Archive"); cbn [negb]; apply IH.
Qed.

(** The chrome copy leaves "Archive" out of the total. *)
Lemma chrome_total_leaves_archive_out (mail_folders : list folder) :
  Chrome.calculate_total_unread_messages mail_folders
  = unread_outside_archive mail_folders.
Proof. apply chrome_total_from. Qed.

Lemma part000_total_from (count : number) (mail_folders : list folder) :
  Part000.calculate_total_unread_messages_from count mail_folders
  = fold_left add (map UnreadItemCount mail_folders) count.
Proof.
  revert count.
  induction mail_folders as [|f rest IH]; intros count; [reflexivity|].
  cbn [Part000.calculate_total_unread_messages_from]. apply IH.
Qed.

Lemma part000_total_adds_all (mail_folders : list folder) :
  Part000.calculate_total_unread_messages mail_folders
  = unread_in_all mail_folders.
Proof. apply part000_total_from. Qed.

(** C5. The total is the sum of [UnreadItemCount] over the folders not
    named "Archive" in the chrome copy, for every list, with 3 for the
    spec's example and 0 for the empty list; the copy in part_000 adds up
    every folder, "Archive" too, and gives 8 for the example. *)
Theorem calculate_total_unread_messages_archive :
  (forall mail_folders,
      Chrome.calculate_total_unread_messages mail_folders
      = unread_outside_archive mail_folders)
  /\ Chrome.calculate_total_unread_messages Demo.three_folders = 3
  /\ Chrome.calculate_total_unread_messages [] = 0
  /\ (forall mail_folders,
         Part000.calculate_total_unread_messages mail_folders
         = unread_in_all mail_folders)
  /\ unread_outside_archive Demo.three_folders = 3
  /\ Part000.calculate_total_unread_messages Demo.three_folders = 8.
Proof.
  repeat split; try reflexivity.
  - apply chrome_total_leaves_archive_out.
  - apply part000_total_adds_all.
Qed.

(** ** Validation of the ID token *)

Lemma validate_id_token_wrong_shape (h : host) (now : Z) (t : string)
    (s : session) :
  length (split "."%char t) <> 3%nat ->
  validate_id_token h now (JString t) s = Returned (false, s).
Proof.
  intros Hlen. destruct t as [|c t]; [reflexivity|].
  unfold validate_id_token.
  destruct (Nat.eqb_spec (length (split "."%char (String c t))) 3%nat);
    [contradiction|reflexivity].
Qed.

Lemma validate_id_token_decoded (h : host) (now : Z) (t : string)
    (d : claims) (s : session) :
  t <> "" -> length (split "."%char t) = 3%nat -> jwt_decode h t = Some d ->
  (payload_checks h now s d
   /\ validate_id_token h now (JString t) s
      = Returned (true, set_user s (accepted_user s d)))
  \/ (~ payload_checks h now s d
      /\ validate_id_token h now (JString t) s = Returned (false, s)).
Proof.
  intros Hne Hlen Hdec. destruct t as [|c t]; [congruence|].
  unfold validate_id_token, payload_checks, issuer_of, notBefore, expires.
  rewrite Hlen, Hdec. cbn [Nat.eqb negb].
  case_bool_decide as Hnonce; cbn [negb];
    [|right; split; [intros (? & _); congruence|reflexivity]].
  destruct (String.eqb_spec (aud d) (client_id (manifest h))) as [Haud|Haud];
    cbn [negb]; [|right; split; [tauto|reflexivity]].
  destruct (String.eqb_spec (iss d)
              ("https://login.microsoftonline.com/" +:+ tid d +:+ "/v2.0"))
    as [Hiss|Hiss];
    cbn [negb]; [|right; split; [tauto|reflexivity]].
  destruct (lt now (new_Date (mul (sub (nbf d) 300) 1000))) eqn:Hnbf;
    cbn [orb];
    [right; split; [intros (_ & _ & _ & ? & _); congruence|reflexivity]|].
  destruct (gt now (new_Date (mul (add (exp d) 300) 1000))) eqn:Hexp;
    [right; split; [intros (_ & _ & _ & _ & ?); congruence|reflexivity]|].
  left. split; [|reflexivity]. repeat split; auto.
Qed.

Lemma validate_id_token_true_inv (h : host) (now : Z) (token : jsval)
    (s s' : session) :
  validate_id_token h now token s = Returned (true, s') ->
  exists t d,
    token = JString t /\ t <> "" /\ length (split "."%char t) = 3%nat
    /\ jwt_decode h t = Some d /\ payload_checks h now s d
    /\ s' = set_user s (accepted_user s d).
Proof.
  intros Hret.
  destruct token as [| |t|name [|n]|]; try discriminate.
  destruct (string_dec t "") as [->|Hne]; [discriminate|].
  destruct (Nat.eq_dec (length (split "."%char t)) 3%nat) as [Hlen|Hlen];
    [|rewrite validate_id_token_wrong_shape in Hret by assumption;
      discriminate].
  destruct (jwt_decode h t) as [d|] eqn:Hdec.
  - destruct (validate_id_token_decoded h now t d s Hne Hlen Hdec)
      as [[Hchecks Htrue]|[_ Hfalse]]; [|congruence].
    exists t, d. repeat split; try assumption; try apply Hchecks.
    congruence.
  - destruct t as [|c t]; [congruence|].
    unfold validate_id_token in Hret. rewrite Hlen, Hdec in Hret.
    discriminate.
Qed.

Lemma validate_id_token_false_unchanged (h : host) (now : Z) (token : jsval)
    (s s' : session) :
  validate_id_token h now token s = Returned (false, s') -> s' = s.
Proof.
  intros Hret.
  destruct token as [| |t|name [|n]|]; try (cbn in Hret; congruence).
  destruct (string_dec t "") as [->|Hne]; [cbn in Hret; congruence|].
  destruct (Nat.eq_dec (length (split "."%char t)) 3%nat) as [Hlen|Hlen];
    [|rewrite validate_id_token_wrong_shape in Hret by assumption;
      congruence].
  destruct (jwt_decode h t) as [d|] eqn:Hdec.
  - destruct (validate_id_token_decoded h now t d s Hne Hlen Hdec)
      as [[_ Htrue]|[_ Hfalse]]; congruence.
  - destruct t as [|c t]; [congruence|].
    unfold validate_id_token in Hret. rewrite Hlen, Hdec in Hret.
    discriminate.
Qed.

(** [validate_id_token] returns true exactly for a non-empty string of
    three period-separated segments whose decoded payload passes the four
    checks as the script makes them. *)
Lemma validate_id_token_accepts_exactly (h : host) (now : Z) (token : jsval)
    (s : session) :
  (exists s', validate_id_token h now token s = Returned (true, s'))
  <-> exists t d,
        token = JString t /\ t <> ""
        /\ length (split "."%char t) = 3%nat
        /\ jwt_decode h t = Some d /\ payload_checks h now s d.
Proof.
  split.
  - intros [s' Hret].
    destruct (validate_id_token_true_inv _ _ _ _ _ Hret)
      as (t & d & Htok & Hne & Hlen & Hdec & Hchecks & _).
    exists t, d. tauto.
  - intros (t & d & -> & Hne & Hlen & Hdec & Hchecks).
    destruct (validate_id_token_decoded h now t d s Hne Hlen Hdec)
      as [[_ Htrue]|[Hno _]]; [eauto|].
    exfalso. apply Hno. exact Hchecks.
Qed.

(** An integer below 2^53 in magnitude is a double. *)
Lemma double_exact (n : Z) : Z.abs n < 2 ^ 53 -> double n = finite n.
Proof.
  intros Hn. unfold double. cbv zeta.
  destruct (Z.ltb_spec (Z.abs n) (2 ^ 53)); [reflexivity|lia].
Qed.

(** For dates that a [Date] holds, the time check of the script is the
    window from 300 seconds before [nbf] to 300 seconds after [exp]. *)
Lemma ordinary_dates_window (now n x : Z) (d : claims) :
  nbf d = finite n -> exp d = finite x ->
  Z.abs ((n - 300) * 1000) <= 8640000000000000 ->
  Z.abs ((x + 300) * 1000) <= 8640000000000000 ->
  (lt now (notBefore d) = false /\ gt now (expires d) = false)
  <-> (n - 300) * 1000 <= now <= (x + 300) * 1000.
Proof.
  intros Hnbf Hexp Hn Hx. unfold notBefore, expires, sub, gt.
  rewrite Hnbf, Hexp. cbn [opp add mul].
  change (Z.opp 300) with (-300).
  assert (H53 : 2 ^ 53 = 9007199254740992) by reflexivity.
  rewrite (double_exact (n + -300)) by lia.
  rewrite (double_exact (x + 300)) by lia.
  cbn [mul].
  rewrite (double_exact ((n + -300) * 1000)) by lia.
  rewrite (double_exact ((x + 300) * 1000)) by lia.
  unfold new_Date.
  destruct (Z.leb_spec (Z.abs ((n + -300) * 1000)) 8640000000000000); [|lia].
  destruct (Z.leb_spec (Z.abs ((x + 300) * 1000)) 8640000000000000); [|lia].
  cbn [lt]. rewrite !Z.ltb_ge. lia.
Qed.

(** C1. The code accepts a token at a time outside the window the claim
    gives: the token's [nbf] is one second after the last second that a
    [Date] holds, so [notBefore] is an Invalid Date and the test
    [now < notBefore] is false, at a time long before [nbf]. The token that
    is not valid before that last second itself is rejected, and the token
    without any dates is accepted. *)
Theorem validate_id_token_accepts_beyond_last_date :
  jwt_decode Demo.the_host "far.future.s" = Some Demo.far_future
  /\ nbf Demo.far_future = 8640000000301
  /\ 1500000 < (8640000000301 - 300) * 1000
  /\ validate_id_token Demo.the_host 1500000 (JString "far.future.s")
       Demo.signed_in
     = Returned (true, Demo.signed_in)
  /\ validate_id_token Demo.the_host 1500000 (JString "last.day.s")
       Demo.signed_in
     = Returned (false, Demo.signed_in)
  /\ validate_id_token Demo.the_host 1500000 (JString "no.dates.s")
       Demo.signed_in
     = Returned (true, Demo.signed_in).
Proof. repeat split; vm_compute; reflexivity. Qed.

(** The demo token is accepted at noon and at the last millisecond of its
    window, rejected one millisecond later, and rejected without its third
    segment. *)
Example validate_id_token_demo :
  validate_id_token Demo.the_host 1500000 (JString "h.p.s") Demo.signed_in
  = Returned (true, Demo.signed_in)
  /\ validate_id_token Demo.the_host 2300000 (JString "h.p.s") Demo.signed_in
     = Returned (true, Demo.signed_in)
  /\ validate_id_token Demo.the_host 2300001 (JString "h.p.s") Demo.signed_in
     = Returned (false, Demo.signed_in)
  /\ validate_id_token Demo.the_host 1500000 (JString "h.p") Demo.signed_in
     = Returned (false, Demo.signed_in).
Proof. repeat split; reflexivity. Qed.

(** C8. A token that [validate_id_token] rejects leaves the instance, and
    so every field of the profile, as it was; the profile differs
    afterwards only when the function returned true. *)
Theorem validate_id_token_rejection_frame (h : host) (now : Z)
    (token : jsval) (s : session) (accepted : bool) (s' : session) :
  validate_id_token h now token s = Returned (accepted, s') ->
  (accepted = false ->
   s' = s
   /\ display_name (user s') = display_name (user s)
   /\ signin_name (user s') = signin_name (user s)
   /\ domain_type (user s') = domain_type (user s)
   /\ email (user s') = email (user s))
  /\ (user s' <> user s -> accepted = true).
Proof.
  intros Hret. split.
  - intros ->. rewrite (validate_id_token_false_unchanged _ _ _ _ _ Hret).
    repeat split; reflexivity.
  - intros Hchanged. destruct accepted; [reflexivity|].
    exfalso. apply Hchanged.
    rewrite (validate_id_token_false_unchanged _ _ _ _ _ Hret). reflexivity.
Qed.

Lemma validate_id_token_rejection_frame_witness :
  (false = false ->
   Demo.signed_in = Demo.signed_in
   /\ display_name (user Demo.signed_in) = display_name (user Demo.signed_in)
   /\ signin_name (user Demo.signed_in) = signin_name (user Demo.signed_in)
   /\ domain_type (user Demo.signed_in) = domain_type (user Demo.signed_in)
   /\ email (user Demo.signed_in) = email (user Demo.signed_in))
  /\ (user Demo.signed_in <> user Demo.signed_in -> false = true).
Proof.
  apply (validate_id_token_rejection_frame
           Demo.the_host 2300001 (JString "h.p.s") Demo.signed_in).
  reflexivity.
Defined.

(** ** Polling while not authorized *)

(** C9. Called while [is_authorized] is false, [fetch_message_count]
    returns at once in both copies: the instance is as it was, nothing is
    done (no request, no badge text), and nothing is left waiting; an alarm
    leaves the whole page as it was. *)
Theorem fetch_message_count_unauthorized_noop (h : host) (m : moment)
    (st : Chrome.state) :
  is_authorized (Chrome.this st) = false ->
  Chrome.fetch_message_count h (Chrome.this st) = (Chrome.this st, [], [])
  /\ Part000.fetch_message_count h (Chrome.this st) = (Chrome.this st, [], [])
  /\ Chrome.step h m Chrome.alarm st = (st, []).
Proof.
  intros Hno. unfold Chrome.step, Chrome.fetch_message_count,
    Part000.fetch_message_count. rewrite Hno. cbn [negb Chrome.after].
  repeat split. destruct st as [s waiting stored]. cbn.
  rewrite app_nil_r. reflexivity.
Qed.

Lemma fetch_message_count_unauthorized_noop_witness :
  Chrome.step Demo.the_host Demo.noon Chrome.alarm (Chrome.boot None)
  = (Chrome.boot None, []).
Proof.
  apply (fetch_message_count_unauthorized_noop
           Demo.the_host Demo.noon (Chrome.boot None)).
  reflexivity.
Defined.

(** ** Parsing the redirect *)

Lemma append_empty (x : string) : "" +:+ x = x.
Proof. reflexivity. Qed.

Lemma append_String (c : ascii) (k x : string) :
  String c k +:+ x = String c (k +:+ x).
Proof. reflexivity. Qed.

Lemma split_at_separator (c : ascii) (k rest : string) :
  free_of c k -> split c (k +:+ String c rest) = k :: split c rest.
Proof.
  induction k as [|d k IH]; intros Hfree.
  - rewrite append_empty. cbn [split]. rewrite Ascii.eqb_refl. reflexivity.
  - destruct Hfree as [Hd Hk]. rewrite append_String. cbn [split].
    destruct (Ascii.eqb_spec d c) as [->|_]; [contradiction|].
    rewrite (IH Hk). reflexivity.
Qed.

Lemma append_grows (v rest : string) : v <> v +:+ String "="%char rest.
Proof.
  induction v as [|c v IH].
  - rewrite append_empty. discriminate.
  - rewrite append_String. intros Heq. injection Heq as Heq.
    exact (IH Heq).
Qed.

Lemma parse_param_files (result : gmap string jsval) (param : string) :
  param_key param <> "__proto__" ->
  parse_param result param
  = <[ param_key param := index (split "="%char param) 1 ]> result.
Proof.
  intros Hkey. unfold parse_param, param_key in *. cbv zeta.
  destruct (String.eqb_spec (to_string (index (split "="%char param) 0))
              "__proto__"); [contradiction|reflexivity].
Qed.

Lemma parse_param_proto (result : gmap string jsval) (param : string) :
  param_key param = "__proto__" -> parse_param result param = result.
Proof.
  intros Hkey. unfold parse_param, param_key in *. cbv zeta.
  rewrite Hkey. reflexivity.
Qed.

Lemma param_key_truncated (key v rest : string) :
  free_of "="%char key -> free_of "="%char v ->
  param_key (key +:+ "=" +:+ v +:+ "=" +:+ rest) = key
  /\ index (split "="%char (key +:+ "=" +:+ v +:+ "=" +:+ rest)) 1
     = JString v.
Proof.
  intros Hkey Hv. unfold param_key.
  change ("=" +:+ v +:+ "=" +:+ rest)
    with (String "="%char (v +:+ String "="%char rest)).
  rewrite (split_at_separator _ _ _ Hkey), (split_at_separator _ _ _ Hv).
  split; reflexivity.
Qed.

Lemma parse_param_truncates (result : gmap string jsval)
    (key v rest : string) :
  key <> "__proto__" -> free_of "="%char key -> free_of "="%char v ->
  parse_param result (key +:+ "=" +:+ v +:+ "=" +:+ rest)
  = <[ key := JString v ]> result.
Proof.
  intros Hproto Hkey Hv.
  destruct (param_key_truncated key v rest Hkey Hv) as [Hk Hvalue].
  rewrite parse_param_files by (rewrite Hk; exact Hproto).
  rewrite Hk, Hvalue. reflexivity.
Qed.

Lemma parse_param_key (result : gmap string jsval) (param key : string) :
  param_key param <> key ->
  parse_param result param !! key = result !! key.
Proof.
  intros Hother.
  destruct (string_dec (param_key param) "__proto__") as [Hproto|Hproto].
  - rewrite (parse_param_proto _ _ Hproto). reflexivity.
  - rewrite (parse_param_files _ _ Hproto). apply lookup_insert_ne.
    exact Hother.
Qed.

Lemma fold_parse_param_other (params : list string)
    (result : gmap string jsval) (key : string) :
  Forall (fun p => param_key p <> key) params ->
  fold_left parse_param params result !! key = result !! key.
Proof.
  revert result. induction params as [|p params IH]; intros result Hall.
  - reflexivity.
  - inversion Hall as [|? ? Hp Hrest]; subst. cbn [fold_left].
    rewrite (IH _ Hrest). apply parse_param_key. exact Hp.
Qed.

(** No parameter becomes a property named [__proto__]. *)
Lemma fold_parse_param_proto (params : list string)
    (result : gmap string jsval) :
  fold_left parse_param params result !! "__proto__" = result !! "__proto__".
Proof.
  revert result. induction params as [|p params IH]; intros result.
  - reflexivity.
  - cbn [fold_left]. rewrite IH.
    destruct (string_dec (param_key p) "__proto__") as [Hproto|Hproto].
    + rewrite (parse_param_proto _ _ Hproto). reflexivity.
    + apply parse_param_key. exact Hproto.
Qed.

(** The last parameter filed under [key] decides what is read there. *)
Lemma parse_auth_response_last (response param : string)
    (before after : list string) :
  param_key param <> "__proto__" ->
  fragment_params response = (before ++ param :: after)%list ->
  Forall (fun p => param_key p <> param_key param) after ->
  get (parse_auth_response response) (param_key param)
  = index (split "="%char param) 1.
Proof.
  intros Hproto Hparams Hafter. unfold get, parse_auth_response.
  rewrite Hparams, fold_left_app. cbn [fold_left].
  rewrite (fold_parse_param_other _ _ _ Hafter).
  rewrite (parse_param_files _ _ Hproto), lookup_insert_eq. reflexivity.
Qed.

(** C10, as amended. A fragment parameter [key=v=rest], whose raw value
    [v=rest] has an '=' in it and whose key is not [__proto__], is filed
    under [key] with the value [v] alone, the text between the first and
    the second '=' of the pair; unless a later parameter has the same key,
    that is what [parse_auth_response] returns for [key], and it is not
    the raw value. *)
Theorem parse_auth_response_truncates_value (response : string)
    (before after : list string) (key v rest : string) :
  key <> "__proto__" ->
  free_of "="%char key -> free_of "="%char v ->
  fragment_params response
  = (before ++ (key +:+ "=" +:+ v +:+ "=" +:+ rest) :: after)%list ->
  Forall (fun p => param_key p <> key) after ->
  (forall result,
      parse_param result (key +:+ "=" +:+ v +:+ "=" +:+ rest)
      = <[ key := JString v ]> result)
  /\ get (parse_auth_response response) key = JString v
  /\ JString v <> JString (v +:+ "=" +:+ rest).
Proof.
  intros Hproto Hkey Hv Hparams Hafter. split; [|split].
  - intros result. apply parse_param_truncates; assumption.
  - destruct (param_key_truncated key v rest Hkey Hv) as [Hk Hvalue].
    rewrite <- Hvalue, <- Hk at 1.
    apply (parse_auth_response_last _ _ before after).
    + rewrite Hk. exact Hproto.
    + exact Hparams.
    + rewrite Hk. exact Hafter.
  - intros Heq. injection Heq as Heq. exact (append_grows _ _ Heq).
Qed.

Lemma parse_auth_response_truncates_value_witness :
  get (parse_auth_response
         "https://ext/callback#access_token=abc==&id_token=h.p.s")
    "access_token"
  = JString "abc".
Proof.
  refine (proj1 (proj2 (parse_auth_response_truncates_value
            "https://ext/callback#access_token=abc==&id_token=h.p.s"
            [] ["id_token=h.p.s"] "access_token" "abc" "=" _ _ _ _ _))).
  - discriminate.
  - cbn. repeat split; discriminate.
  - cbn. repeat split; discriminate.
  - reflexivity.
  - constructor; [|constructor]. vm_compute. discriminate.
Defined.

(** The parameter [__proto__=v=rest] leaves the result without a property
    of its own, and [result.__proto__] reads the prototype. *)
Example proto_parameter_run :
  parse_auth_response "https://ext/callback#__proto__=v=rest" = ∅
  /\ get (parse_auth_response "https://ext/callback#__proto__=v=rest")
       "__proto__"
     = JObject.
Proof. split; reflexivity. Qed.

(** C10, as stated, fails: the value of a parameter whose key is
    [__proto__] is not stored at all. *)
Lemma proto_parameter_is_not_stored :
  ~ (forall response before after key v rest,
        free_of "="%char key -> free_of "="%char v ->
        fragment_params response
        = (before ++ (key +:+ "=" +:+ v +:+ "=" +:+ rest) :: after)%list ->
        Forall (fun p => param_key p <> key) after ->
        get (parse_auth_response response) key = JString v).
Proof.
  intros Hall.
  specialize (Hall "https://ext/callback#__proto__=v=rest" [] []
                "__proto__" "v" "rest").
  destruct proto_parameter_run as [_ Hrun]. rewrite Hrun in Hall.
  assert (Hfalse : JObject = JString "v"); [|discriminate Hfalse].
  apply Hall.
  - cbn. repeat split; discriminate.
  - cbn. repeat split; discriminate.
  - reflexivity.
  - constructor.
Qed.

(** ** Finishing an authorization *)

Lemma chrome_authorize_query_nonce (h : host) (m : moment)
    (interactive : bool) (s : session) :
  query_get (Chrome.authorize_query h m interactive s) "nonce"
  = JString (create_nonce (nonce_random m)).
Proof.
  unfold Chrome.authorize_query.
  destruct interactive; cbn [negb];
    [destruct (truthy (domain_type (user s)) && truthy (signin_name (user s)))|];
    reflexivity.
Qed.

(** [authorize] writes the nonce and nothing else, and launches one web
    auth flow, interactive as asked. *)
Lemma chrome_authorize_effect (h : host) (m : moment) (interactive : bool)
    (s : session) :
  Chrome.authorize h m interactive s
  = (set_current_nonce s (JString (create_nonce (nonce_random m))),
     launchWebAuthFlow
       (Chrome.generate_request_url (auth_url (manifest h))
          (Chrome.authorize_query h m interactive s))
       interactive).
Proof.
  unfold Chrome.authorize. rewrite chrome_authorize_query_nonce. reflexivity.
Qed.

(** C4, as amended. When [finish_auth] finds the ID token invalid: after
    a non-interactive attempt it launches one web auth flow, with
    [interactive] true, and does nothing else (only the nonce is new);
    after an interactive attempt it logs "Authorization failed: ..." and
    leaves the instance as it was. Either way [is_authorized] and the
    tokens are as before: an unauthorized instance stays unauthorized, and
    an authorized one stays authorized. *)
Theorem finish_auth_invalid_token (h : host) (m : moment) (result : string)
    (interactive awaited : bool) (s s' : session) :
  validate_id_token h (now m) (get (parse_auth_response result) "id_token") s
  = Returned (false, s') ->
  (interactive = false ->
   exists url,
     Chrome.finish_auth h m (redirect result) interactive awaited s
     = (set_current_nonce s (JString (create_nonce (nonce_random m))),
        [launchWebAuthFlow url true], [Chrome.auth_flow true false]))
  /\ (interactive = true ->
      Chrome.finish_auth h m (redirect result) interactive awaited s
      = (s,
         [console_error
            ("Authorization failed: "
             +:+ to_string (get (parse_auth_response result) "error_message"))],
         []))
  /\ (let after :=
        fst (fst (Chrome.finish_auth h m (redirect result) interactive
                    awaited s)) in
      is_authorized after = is_authorized s
      /\ access_token after = access_token s
      /\ id_token after = id_token s).
Proof.
  intros Hinvalid.
  pose proof (validate_id_token_false_unchanged _ _ _ _ _ Hinvalid) as ->.
  split; [|split]; [intros ->|intros ->|];
    unfold Chrome.finish_auth; rewrite Hinvalid; cbn [negb].
  - rewrite chrome_authorize_effect. eexists. reflexivity.
  - reflexivity.
  - destruct interactive; cbn [negb];
      [|rewrite chrome_authorize_effect]; repeat split; reflexivity.
Qed.

Lemma finish_auth_invalid_token_witness :
  (exists url,
     Chrome.finish_auth Demo.the_host Demo.noon
       (redirect "https://ext/callback#access_token=abc") false true
       Demo.signed_in
     = (set_current_nonce Demo.signed_in (JString Demo.zero_nonce),
        [launchWebAuthFlow url true], [Chrome.auth_flow true false]))
  /\ Chrome.finish_auth Demo.the_host Demo.noon
       (redirect "https://ext/callback#error=access_denied") true false
       Demo.signed_in
     = (Demo.signed_in, [console_error "Authorization failed: undefined"], []).
Proof.
  split.
  - apply (finish_auth_invalid_token Demo.the_host Demo.noon
             "https://ext/callback#access_token=abc" false true
             Demo.signed_in Demo.signed_in); reflexivity.
  - apply (finish_auth_invalid_token Demo.the_host Demo.noon
             "https://ext/callback#error=access_denied" true false
             Demo.signed_in Demo.signed_in); reflexivity.
Defined.

(** ** The two tokens go together *)

Section TokensPaired.

Context (h : host).

Lemma tokens_paired_same (s s' : session) :
  access_token s' = access_token s -> id_token s' = id_token s ->
  tokens_paired s -> tokens_paired s'.
Proof. unfold tokens_paired. intros -> ->. tauto. Qed.

Ltac fetch_only :=
  unfold writes_paired, await_request, Chrome.make_remote_request,
    Part000.make_remote_request;
  repeat match goal with
         | |- context [Headers ?init] => destruct (Headers init)
         end;
  repeat (constructor; try exact I).

Lemma fetch_message_count_paired (s : session) :
  tokens_paired s -> turn_paired (Chrome.fetch_message_count h s).
Proof.
  intros Hs. unfold Chrome.fetch_message_count.
  destruct (is_authorized s); cbn [negb]; split; cbn; try assumption;
    fetch_only.
Qed.

Lemma fetch_message_count_finish_paired (r : response) (s : session) :
  tokens_paired s -> turn_paired (Chrome.fetch_message_count_finish r s).
Proof.
  intros Hs. unfold Chrome.fetch_message_count_finish.
  destruct (ok r); cbn [negb]; split; cbn; try assumption; fetch_only.
Qed.

Lemma fetch_message_count_first_paired (m : moment) (r : response)
    (s : session) :
  tokens_paired s -> turn_paired (Chrome.fetch_message_count_first h m r s).
Proof.
  intros Hs. unfold Chrome.fetch_message_count_first.
  destruct (negb (ok r) && (status r <? 500)).
  - rewrite chrome_authorize_effect. split; cbn; [assumption|fetch_only].
  - apply fetch_message_count_finish_paired. exact Hs.
Qed.

Lemma callback_writes_nothing (awaited : bool) (s : session) :
  writes_paired (fst (Chrome.callback h awaited s)).
Proof. destruct awaited; cbn; fetch_only. Qed.

Lemma finish_auth_paired (m : moment) (r : auth_result)
    (interactive awaited : bool) (s : session) :
  tokens_paired s -> turn_paired (Chrome.finish_auth h m r interactive awaited s).
Proof.
  intros Hs. unfold Chrome.finish_auth. destruct r as [message|result].
  - pose proof (callback_writes_nothing awaited s) as Hcb.
    destruct (Chrome.callback h awaited s) as [effects tasks].
    split; cbn; [assumption|]. constructor; [exact I|exact Hcb].
  - destruct (validate_id_token h (now m)
                (get (parse_auth_response result) "id_token") s)
      as [[[|] s']|] eqn:Hval.
    + destruct (validate_id_token_true_inv _ _ _ _ _ Hval)
        as (t & d & Htok & Hne & _).
      split; cbn; [|fetch_only].
      right. exists t. cbn. split; assumption.
    + pose proof (validate_id_token_false_unchanged _ _ _ _ _ Hval) as ->.
      destruct interactive; cbn [negb].
      * split; cbn; [assumption|fetch_only].
      * rewrite chrome_authorize_effect. split; cbn; [assumption|fetch_only].
    + split; cbn; [assumption|fetch_only].
Qed.

Lemma finish_auth_me_paired (awaited : bool) (r : response) (s : session) :
  tokens_paired s -> turn_paired (Chrome.finish_auth_me h awaited r s).
Proof.
  intros Hs. unfold Chrome.finish_auth_me.
  set (s' := if ok r then set_email s (EmailAddress r) else s).
  assert (Hs' : tokens_paired s').
  { subst s'. destruct (ok r); [|exact Hs].
    apply (tokens_paired_same s); [reflexivity|reflexivity|exact Hs]. }
  pose proof (callback_writes_nothing awaited s') as Hcb.
  destruct (Chrome.callback h awaited s') as [effects tasks].
  split; cbn; [assumption|]. constructor; assumption.
Qed.

Lemma onClicked_paired (m : moment) (s : session) :
  tokens_paired s -> turn_paired (Chrome.onClicked h m s).
Proof.
  intros Hs. unfold Chrome.onClicked. destruct (is_authorized s); cbn [negb].
  - split; cbn; [assumption|fetch_only].
  - rewrite chrome_authorize_effect. split; cbn; [assumption|fetch_only].
Qed.

Lemma resume_paired (m : moment) (t : Chrome.task) (a : Chrome.arrival)
    (s : session) (t' : Chrome.turn) :
  tokens_paired s -> Chrome.resume h m t a s = Some t' -> turn_paired t'.
Proof.
  intros Hs Hresume.
  destruct t, a; cbn in Hresume; try discriminate;
    injection Hresume as <-;
    auto using fetch_message_count_paired, fetch_message_count_finish_paired,
      fetch_message_count_first_paired, finish_auth_paired,
      finish_auth_me_paired.
Qed.

Lemma storage_sync_write_paired (stored : option session) (data : session) :
  tokens_paired data ->
  forall record, storage_sync_write stored data = Some record ->
                 tokens_paired record.
Proof.
  intros Hdata record [= <-]. unfold tokens_paired. cbn.
  destruct Hdata as [[-> ->]|(t & -> & Ht)].
  - left. split; reflexivity.
  - right. exists t. split; [reflexivity|exact Ht].
Qed.

Lemma written_paired (effects : list effect) (stored : option session) :
  writes_paired effects ->
  (forall data, stored = Some data -> tokens_paired data) ->
  forall data, written effects stored = Some data -> tokens_paired data.
Proof.
  unfold written. revert stored.
  induction effects as [|e effects IH]; intros stored Hw Hstored.
  - exact Hstored.
  - inversion Hw as [|? ? He Hrest]; subst. cbn [fold_left].
    apply IH; [exact Hrest|].
    destruct e; try exact Hstored.
    apply storage_sync_write_paired. exact He.
Qed.

Lemma after_paired (st : Chrome.state) (waiting : list Chrome.task)
    (t : Chrome.turn) :
  state_paired st -> turn_paired t ->
  state_paired (fst (Chrome.after st waiting t)).
Proof.
  intros [_ Hstore] [Hs Hw]. destruct t as [[s effects] tasks].
  split; cbn; [exact Hs|]. apply written_paired; assumption.
Qed.

Lemma boot_paired (stored : option session) :
  (forall data, stored = Some data -> tokens_paired data) ->
  state_paired (Chrome.boot stored).
Proof.
  intros Hstored. split; [|exact Hstored].
  destruct stored as [data|]; cbn.
  - apply (tokens_paired_same data); [reflexivity|reflexivity|].
    apply Hstored. reflexivity.
  - left. split; reflexivity.
Qed.

Lemma step_paired (m : moment) (e : Chrome.event) (st : Chrome.state) :
  state_paired st -> state_paired (fst (Chrome.step h m e st)).
Proof.
  intros Hst. pose proof Hst as [Hs Hstore].
  destruct e as [| |i a|]; cbn [Chrome.step].
  - apply after_paired; [exact Hst|].
    apply fetch_message_count_paired. exact Hs.
  - apply after_paired; [exact Hst|]. apply onClicked_paired. exact Hs.
  - destruct (Chrome.pending st !! i) as [t|]; [|exact Hst].
    destruct (Chrome.resume h m t a (Chrome.this st)) as [t'|] eqn:Hresume;
      [|exact Hst].
    apply after_paired; [exact Hst|].
    exact (resume_paired _ _ _ _ _ Hs Hresume).
  - apply boot_paired. exact Hstore.
Qed.

Lemma run_reachable (events : list (moment * Chrome.event))
    (st : Chrome.state) :
  Chrome.reachable h st -> Chrome.reachable h (fst (Chrome.run h events st)).
Proof.
  revert st. induction events as [|[m e] events IH]; intros st Hst.
  - exact Hst.
  - cbn [Chrome.run].
    pose proof (Chrome.reachable_step h m e st Hst) as Hstep.
    destruct (Chrome.step h m e st) as [st' done].
    specialize (IH st' Hstep).
    destruct (Chrome.run h events st') as [st'' more]. exact IH.
Qed.

(** C3, as amended. In every state the page can reach, [access_token] and
    [id_token] are both null, or [id_token] is set, a non-empty string:
    [access_token] is never set while [id_token] is null. The same holds
    of every record the page has put in the store. Reading the store at
    start, finishing an authorization and failing a validation all keep
    it so. *)
Theorem access_token_is_not_set_alone (st : Chrome.state) :
  Chrome.reachable h st ->
  tokens_paired (Chrome.this st)
  /\ (forall data, Chrome.store st = Some data -> tokens_paired data)
  /\ (is_set (access_token (Chrome.this st)) ->
      is_set (id_token (Chrome.this st))).
Proof.
  intros Hreach.
  assert (Hpaired : state_paired st).
  { induction Hreach as [|m e st _ IH].
    - apply boot_paired. discriminate.
    - apply step_paired. exact IH. }
  destruct Hpaired as [Hthis Hstore]. repeat split; try assumption.
  intros [a Ha]. destruct Hthis as [[Hnull _]|(t & Hid & _)].
  - congruence.
  - exists t. exact Hid.
Qed.

(** The same pairing in part_000, whose callback writes both tokens in
    the same way. *)
Lemma part000_authorize_effect (m : moment) (interactive : bool)
    (s : session) :
  exists n url,
    Part000.authorize h m interactive s
    = (set_current_nonce s n, launchWebAuthFlow url interactive).
Proof. unfold Part000.authorize. eexists _, _. reflexivity. Qed.

Lemma part000_fetch_message_count_paired (s : session) :
  tokens_paired s -> part000_turn_paired (Part000.fetch_message_count h s).
Proof.
  intros Hs. unfold Part000.fetch_message_count.
  destruct (is_authorized s); cbn [negb]; split; cbn; try assumption;
    unfold Part000.make_remote_request; fetch_only.
Qed.

Lemma part000_finish_paired (r : response) (s : session) :
  tokens_paired s -> part000_turn_paired (Part000.fetch_message_count_finish r s).
Proof.
  intros Hs. unfold Part000.fetch_message_count_finish.
  destruct (ok r); cbn [negb]; split; cbn; try assumption; fetch_only.
Qed.

Lemma part000_first_paired (m : moment) (r : response) (s : session) :
  tokens_paired s ->
  part000_turn_paired (Part000.fetch_message_count_first h m r s).
Proof.
  intros Hs. unfold Part000.fetch_message_count_first.
  destruct (negb (ok r) && (status r <? 500)).
  - destruct (part000_authorize_effect m false s) as (n & url & ->).
    split; cbn; [assumption|].
    unfold Part000.make_remote_request. fetch_only.
  - apply part000_finish_paired. exact Hs.
Qed.

Lemma part000_auth_callback_paired (m : moment) (r : auth_result)
    (s : session) :
  tokens_paired s -> part000_turn_paired (Part000.auth_callback h m r s).
Proof.
  intros Hs. unfold Part000.auth_callback. destruct r as [message|result].
  - split; cbn; [assumption|fetch_only].
  - destruct (validate_id_token h (now m)
                (get (parse_auth_response result) "id_token") s)
      as [[[|] s']|] eqn:Hval.
    + destruct (validate_id_token_true_inv _ _ _ _ _ Hval)
        as (t & d & Htok & Hne & _).
      set (s'' := set_tokens s' _ _).
      assert (Hs'' : tokens_paired s'').
      { right. exists t. subst s''. cbn. split; assumption. }
      pose proof (part000_fetch_message_count_paired s'' Hs'') as [Hf Hw].
      destruct (Part000.fetch_message_count h s'') as [[s3 effects] tasks].
      split; cbn in *; [exact Hf|].
      constructor; [exact I|]. constructor; assumption.
    + pose proof (validate_id_token_false_unchanged _ _ _ _ _ Hval) as ->.
      split; cbn; [assumption|fetch_only].
    + split; cbn; [assumption|fetch_only].
Qed.

Lemma part000_onClicked_paired (m : moment) (s : session) :
  tokens_paired s -> part000_turn_paired (Part000.onClicked h m s).
Proof.
  intros Hs. unfold Part000.onClicked. destruct (is_authorized s).
  - split; cbn; [assumption|fetch_only].
  - destruct (part000_authorize_effect m true s) as (n & url & ->).
    split; cbn; [assumption|fetch_only].
Qed.

Lemma part000_after_paired (st : Part000.state) (waiting : list Part000.task)
    (t : Part000.turn) :
  part000_state_paired st -> part000_turn_paired t ->
  part000_state_paired (fst (Part000.after st waiting t)).
Proof.
  intros [_ Hstore] [Hs Hw]. destruct t as [[s effects] tasks].
  split; cbn; [exact Hs|]. apply written_paired; assumption.
Qed.

Lemma part000_step_paired (m : moment) (e : Part000.event)
    (st : Part000.state) :
  part000_state_paired st ->
  part000_state_paired (fst (Part000.step h m e st)).
Proof.
  intros Hst. pose proof Hst as [Hs Hstore].
  destruct e as [| |i a|]; cbn [Part000.step].
  - apply part000_after_paired; [exact Hst|].
    apply part000_fetch_message_count_paired. exact Hs.
  - apply part000_after_paired; [exact Hst|].
    apply part000_onClicked_paired. exact Hs.
  - destruct (Part000.pending st !! i) as [t|]; [|exact Hst].
    destruct (Part000.resume h m t a (Part000.this st)) as [t'|] eqn:Hresume;
      [|exact Hst].
    apply part000_after_paired; [exact Hst|].
    destruct t, a; cbn in Hresume; try discriminate;
      injection Hresume as <-;
      auto using part000_first_paired, part000_finish_paired,
        part000_auth_callback_paired.
  - split; [|exact Hstore]. cbn.
    destruct (Part000.store st) as [data|]; cbn.
    + apply (tokens_paired_same data); [reflexivity|reflexivity|].
      apply Hstore. reflexivity.
    + left. split; reflexivity.
Qed.

Lemma part000_access_token_is_not_set_alone (st : Part000.state) :
  Part000.reachable h st ->
  tokens_paired (Part000.this st)
  /\ (is_set (access_token (Part000.this st)) ->
      is_set (id_token (Part000.this st))).
Proof.
  intros Hreach.
  assert (Hpaired : part000_state_paired st).
  { induction Hreach as [|m e st _ IH].
    - split; [left; split; reflexivity|discriminate].
    - apply part000_step_paired. exact IH. }
  destruct Hpaired as [Hthis _]. split; [exact Hthis|].
  intros [a Ha]. destruct Hthis as [[Hnull _]|(t & Hid & _)].
  - congruence.
  - exists t. exact Hid.
Qed.

End TokensPaired.

(** ** A redirect without an access token *)

(** After a first start, a click and a redirect that carries a valid ID
    token and no access token, the page is authorized with [id_token] set
    and [access_token] undefined, and asks for the profile with
    "Bearer undefined". *)
Example id_token_only_run :
  Chrome.run Demo.the_host Demo.id_token_only (Chrome.boot None)
  = ({| Chrome.this :=
          {| is_authorized := true; access_token := JUndefined;
             id_token := JString "h.p.s";
             current_nonce := JString Demo.zero_nonce;
             user := {| display_name := JString "Ann";
                        signin_name := JString "ann@example.com";
                        domain_type := JString "organizations";
                        email := JUndefined |} |};
        Chrome.pending := [Chrome.me_response false];
        Chrome.store := None |},
     [launchWebAuthFlow
        ("https://login/authorize?client_id=client"
         +:+ "&redirect_uri=https%3A%2F%2Fext%2Fcallback"
         +:+ "&response_type=id_token%20token&scope=openid%20mail.read"
         +:+ "&response_mode=fragment"
         +:+ "&nonce=00000000-0000-0000-0000-000000000000"
         +:+ "&state=00010002-0003-0000-0000-000000000000")
        true;
      fetch "https://api/me"
        {| credentials := None; method := "GET";
           headers := [("Authorization", "Bearer undefined");
                       ("Accept", "application/json")];
           body := None |}]).
Proof. vm_compute. reflexivity. Qed.

(** C3, as stated, fails: the page reaches a state in which [id_token] is
    set and [access_token] is not. *)
Lemma tokens_not_always_set_together :
  ~ (forall st,
        Chrome.reachable Demo.the_host st ->
        tokens_set_together (Chrome.this st)).
Proof.
  intros Hall.
  specialize (Hall _ (run_reachable Demo.the_host Demo.id_token_only _
                        (Chrome.reachable_boot Demo.the_host))).
  rewrite id_token_only_run in Hall. cbn in Hall.
  destruct Hall as [[[t Ht] _]|[Hnull _]]; discriminate.
Qed.

Lemma access_token_is_not_set_alone_witness :
  tokens_paired
    (Chrome.this (fst (Chrome.run Demo.the_host Demo.id_token_only
                         (Chrome.boot None)))).
Proof.
  apply (access_token_is_not_set_alone Demo.the_host).
  apply run_reachable. apply Chrome.reachable_boot.
Defined.

(** ** An interactive attempt that fails on an authorized instance *)

(** After a sign-in, a 401 and a silent attempt without a token, the page
    is authorized and waits for the interactive attempt that [finish_auth]
    launched. *)
Example failed_silent_attempt_run :
  fst (Chrome.run Demo.the_host Demo.failed_silent_attempt (Chrome.boot None))
  = {| Chrome.this :=
         {| is_authorized := true; access_token := JString "fresh";
            id_token := JString "h.p.s";
            current_nonce := JString Demo.zero_nonce; user := Demo.ann |};
       Chrome.pending := [Chrome.auth_flow true false];
       Chrome.store :=
         Some {| is_authorized := true; access_token := JString "fresh";
                 id_token := JString "h.p.s";
                 current_nonce := JString Demo.zero_nonce;
                 user := Demo.ann |} |}.
Proof. vm_compute. reflexivity. Qed.

(** C4, as stated, fails: when the interactive attempt that follows a
    failed silent one ends with an invalid ID token, the error is logged
    and the instance is still authorized. *)
Lemma failed_interactive_attempt_stays_authorized :
  ~ (forall st m i result s',
        Chrome.reachable Demo.the_host st ->
        Chrome.pending st !! i = Some (Chrome.auth_flow true false) ->
        validate_id_token Demo.the_host (now m)
          (get (parse_auth_response result) "id_token") (Chrome.this st)
        = Returned (false, s') ->
        is_authorized
          (Chrome.this
             (fst (Chrome.step Demo.the_host m
                     (Chrome.arrives i (Chrome.auth (redirect result))) st)))
        = false).
Proof.
  intros Hall.
  specialize (Hall _ Demo.noon 0%nat "https://ext/callback#error=access_denied"
                (Chrome.this
                   (fst (Chrome.run Demo.the_host Demo.failed_silent_attempt
                           (Chrome.boot None))))
                (run_reachable Demo.the_host Demo.failed_silent_attempt _
                   (Chrome.reachable_boot Demo.the_host))).
  rewrite failed_silent_attempt_run in Hall.
  specialize (Hall eq_refl eq_refl). vm_compute in Hall. discriminate Hall.
Qed.

(** ** The retry after an expired token *)

(** In the chrome copy the request is made again only by [callback()] of
    the [finish_auth] that [fetch_message_count] waits for: at the end of a
    successful [finish_auth], or when the web auth flow failed. The turn of
    the first response launches the flow and makes no request. *)
Lemma chrome_retry_follows_callback (h : host) (m : moment) (t : Chrome.task)
    (a : Chrome.arrival) (s s' : session) (effects : list effect)
    (tasks : list Chrome.task) :
  Chrome.resume h m t a s = Some (s', effects, tasks) ->
  In Chrome.retried_response tasks ->
  (exists interactive message,
      t = Chrome.auth_flow interactive true /\ a = Chrome.auth (lastError message))
  \/ (exists r, t = Chrome.me_response true /\ a = Chrome.http r).
Proof.
  intros Hresume Hin.
  destruct t as [| |interactive awaited|awaited|], a as [r|r|];
    cbn in Hresume; try discriminate; injection Hresume as Hturn.
  - unfold Chrome.fetch_message_count_first in Hturn.
    destruct (negb (ok r) && (status r <? 500)).
    + rewrite chrome_authorize_effect in Hturn.
      injection Hturn as <- <- <-. cbn in Hin. intuition discriminate.
    + unfold Chrome.fetch_message_count_finish in Hturn.
      destruct (negb (ok r)); injection Hturn as <- <- <-; contradiction.
  - unfold Chrome.fetch_message_count_finish in Hturn.
    destruct (negb (ok r)); injection Hturn as <- <- <-; contradiction.
  - unfold Chrome.finish_auth in Hturn. destruct r as [message|result].
    + destruct awaited; [left; eauto|].
      injection Hturn as <- <- <-. contradiction.
    + destruct (validate_id_token h (now m)
                  (get (parse_auth_response result) "id_token") s)
        as [[[|] s'']|]; [..|injection Hturn as <- <- <-; contradiction].
      * unfold await_request in Hturn. injection Hturn as <- <- <-.
        destruct (is_fetch _); cbn in Hin; intuition discriminate.
      * destruct interactive; cbn [negb] in Hturn;
          [|rewrite chrome_authorize_effect in Hturn];
          injection Hturn as <- <- <-; cbn in Hin; intuition discriminate.
  - destruct awaited; [right; eauto|].
    unfold Chrome.finish_auth_me in Hturn. cbn in Hturn.
    injection Hturn as <- <- <-. cbn in Hin. intuition discriminate.
  - unfold Chrome.fetch_message_count, await_request in Hturn.
    destruct (negb (is_authorized s)); injection Hturn as <- <- <-;
      try destruct (is_fetch _); cbn in Hin; intuition discriminate.
Qed.

Lemma chrome_first_response_waits (h : host) (m : moment) (r : response)
    (s : session) :
  ok r = false -> status r < 500 ->
  exists url,
    Chrome.fetch_message_count_first h m r s
    = (set_current_nonce s (JString (create_nonce (nonce_random m))),
       [launchWebAuthFlow url false], [Chrome.auth_flow false true]).
Proof.
  intros Hok Hstatus. unfold Chrome.fetch_message_count_first.
  rewrite Hok. destruct (Z.ltb_spec (status r) 500); [|lia]. cbn [negb andb].
  rewrite chrome_authorize_effect. eexists. reflexivity.
Qed.

(** In part_000 the turn of a failed first response launches the silent
    flow and goes on to the second request at once, whatever the host and
    the instance. *)
Lemma part000_first_response_retries_at_once (h : host) (m : moment)
    (r : response) (s : session) :
  ok r = false -> status r < 500 ->
  exists url s',
    let request :=
      Part000.make_remote_request s' (Part000.mail_folders_url h) None in
    Part000.fetch_message_count_first h m r s
    = (s', [launchWebAuthFlow url false; request],
       Part000.auth_flow false
       :: (if is_fetch request then [Part000.retried_response] else [])).
Proof.
  intros Hok Hstatus. unfold Part000.fetch_message_count_first.
  rewrite Hok. destruct (Z.ltb_spec (status r) 500); [|lia]. cbn [negb andb].
  unfold Part000.authorize. eexists _, _. reflexivity.
Qed.

(** The second request of the chrome copy is never the first one again:
    it is a POST with a body, the first a GET without one. *)
Lemma chrome_retry_differs_from_first (h : host) (s : session) :
  is_authorized s = true ->
  let first :=
    Chrome.make_remote_request s
      (Chrome.generate_request_url (Chrome.mail_folders_url h)
         Chrome.mail_query)
      None in
  let second :=
    Chrome.make_remote_request s (Chrome.mail_folders_url h)
      (Some Chrome.mail_query) in
  snd (fst (Chrome.fetch_message_count h s)) = [first]
  /\ fst (Chrome.fetch_message_count_retry h s) = [second]
  /\ (is_fetch first = true -> second <> first).
Proof.
  intros Hauth. cbv zeta. unfold Chrome.fetch_message_count. rewrite Hauth.
  cbn [negb]. repeat split. unfold Chrome.make_remote_request.
  destruct (Headers _); [|discriminate].
  intros _ Heq. injection Heq as _ Hmethod _. discriminate.
Qed.

(** C6. In part_000, [fetch_message_count] does not wait for [authorize]:
    the turn that handles a 401 launches the silent web auth flow and makes
    the request again at once, so the retry is under way while the flow,
    whose callback has not run, is still among the waiting tasks. *)
Theorem part000_retries_while_reauthorizing :
  Part000.fetch_message_count_first Demo.the_host Demo.noon
    Demo.unauthorized_401 Demo.signed_in
  = (Demo.signed_in,
     [launchWebAuthFlow
        ("https://login/authorize?client_id=client"
         +:+ "&redirect_url=https%3A%2F%2Fext%2Fcallback"
         +:+ "&response_type=id_token token&scope=openid%20mail.read"
         +:+ "&response_mode=fragment"
         +:+ "&nonce=00000000-0000-0000-0000-000000000000"
         +:+ "&prompt=none&domain_hint=organizations"
         +:+ "&login_hint=ann@example.com&")
        false;
      fetch "https://api/me/MailFolders"
        {| credentials := Some "include"; method := "GET";
           headers := [("Authorization", "Bearer stale");
                       ("Accept", "application/json")];
           body := None |}],
     [Part000.auth_flow false; Part000.retried_response]).
Proof. vm_compute. reflexivity. Qed.

(** C2. After a 401 the chrome copy launches one silent web auth flow;
    when that flow ends (here with [lastError]) the request it makes is
    not the first one again: the first is a GET of the folder URL with its
    query string, the second a POST of the bare folder URL with the query
    object as its body. When the silent flow returns a redirect whose ID
    token is not valid, no second request is made at all: an interactive
    flow is launched instead. *)
Theorem chrome_retry_is_another_request :
  snd (Chrome.run Demo.the_host
         [(Demo.noon, Chrome.alarm);
          (Demo.noon, Chrome.arrives 0 (Chrome.http Demo.unauthorized_401));
          (Demo.noon,
           Chrome.arrives 0 (Chrome.auth (lastError "interaction required")))]
         {| Chrome.this := Demo.signed_in; Chrome.pending := [];
            Chrome.store := Some Demo.signed_in |})
  = [fetch
       "https://api/me/MailFolders?$filter=UnreadItemCount%20gt%200&$top=50"
       {| credentials := None; method := "GET";
          headers := [("Authorization", "Bearer stale");
                      ("Accept", "application/json");
                      ("x-AnchorMailbox", "ann@example.com")];
          body := None |};
     launchWebAuthFlow
       ("https://login/authorize?client_id=client"
        +:+ "&redirect_uri=https%3A%2F%2Fext%2Fcallback"
        +:+ "&response_type=token&scope=openid%20mail.read"
        +:+ "&response_mode=fragment"
        +:+ "&nonce=00000000-0000-0000-0000-000000000000"
        +:+ "&state=00010002-0003-0000-0000-000000000000"
        +:+ "&prompt=none&domain_hint=organizations"
        +:+ "&login_hint=ann@example.com")
       false;
     console_error "interaction required";
     fetch "https://api/me/MailFolders?"
       {| credentials := None; method := "POST";
          headers := [("Authorization", "Bearer stale");
                      ("Accept", "application/json");
                      ("x-AnchorMailbox", "ann@example.com")];
          body := Some [("$filter", JString "UnreadItemCount%20gt%200");
                        ("$top", JString "50")] |}]
  /\ List.filter is_fetch
       (snd (Chrome.run Demo.the_host
               [(Demo.noon, Chrome.alarm);
                (Demo.noon,
                 Chrome.arrives 0 (Chrome.http Demo.unauthorized_401));
                (Demo.noon,
                 Chrome.arrives 0
                   (Chrome.auth
                      (redirect "https://ext/callback#access_token=fresh")))]
               {| Chrome.this := Demo.signed_in; Chrome.pending := [];
                  Chrome.store := Some Demo.signed_in |}))
     = [fetch
          "https://api/me/MailFolders?$filter=UnreadItemCount%20gt%200&$top=50"
          {| credentials := None; method := "GET";
             headers := [("Authorization", "Bearer stale");
                         ("Accept", "application/json");
                         ("x-AnchorMailbox", "ann@example.com")];
             body := None |}].
Proof. split; vm_compute; reflexivity. Qed.

(** ** The authorization URL *)

(** The values the script encodes itself are encoded once. *)
Lemma chrome_authorize_query_encoded (h : host) (m : moment)
    (interactive : bool) (s : session) :
  query_get (Chrome.authorize_query h m interactive s) "redirect_uri"
  = query_get (percent_encoded_once (AuthQuery h m interactive s)) "redirect_uri"
  /\ query_get (Chrome.authorize_query h m interactive s) "scope"
     = query_get (percent_encoded_once (AuthQuery h m interactive s)) "scope".
Proof.
  unfold Chrome.authorize_query, AuthQuery.
  destruct interactive; cbn [negb];
    [destruct (truthy (domain_type (user s)) && truthy (signin_name (user s)))|];
    split; reflexivity.
Qed.

(** C7. The silent attempt of a signed-in user launches a URL in which
    [login_hint] is the sign-in name as it is, "ann@example.com", where its
    percent-encoding is "ann%40example.com": the script encodes
    [redirect_uri], [scope] and the interactive [response_type] itself and
    [generate_request_url] appends every value as it gets it, so the other
    values are not encoded at all. *)
Theorem chrome_authorize_url_has_raw_values :
  snd (Chrome.authorize Demo.the_host Demo.noon false Demo.signed_in)
  = launchWebAuthFlow
      ("https://login/authorize?client_id=client"
       +:+ "&redirect_uri=https%3A%2F%2Fext%2Fcallback"
       +:+ "&response_type=token&scope=openid%20mail.read"
       +:+ "&response_mode=fragment"
       +:+ "&nonce=00000000-0000-0000-0000-000000000000"
       +:+ "&state=00010002-0003-0000-0000-000000000000"
       +:+ "&prompt=none&domain_hint=organizations"
       +:+ "&login_hint=ann@example.com")
      false
  /\ encoded_request_url Demo.the_host Demo.noon false Demo.signed_in
     = "https://login/authorize?client_id=client"
       +:+ "&redirect_uri=https%3A%2F%2Fext%2Fcallback"
       +:+ "&response_type=token&scope=openid%20mail.read"
       +:+ "&response_mode=fragment"
       +:+ "&nonce=00000000-0000-0000-0000-000000000000"
       +:+ "&state=00010002-0003-0000-0000-000000000000"
       +:+ "&prompt=none&domain_hint=organizations"
       +:+ "&login_hint=ann%40example.com"
  /\ query_get (Chrome.authorize_query Demo.the_host Demo.noon false
                  Demo.signed_in) "login_hint"
     <> JString (encodeURIComponent "ann@example.com").
Proof.
  split; [|split]; [vm_compute; reflexivity..|].
  vm_compute. discriminate.
Qed.

(** * Further properties of the script *)

(** ** Nonces *)

(** A number below 16 is written as one lower-case digit of its value. *)
Lemma lower_hex_digit (d : Z) :
  0 <= d < 16 ->
  exists c,
    lower_hex d = String c EmptyString /\ is_lower_hex c = true
    /\ hex_value c = d.
Proof.
  intros Hd.
  assert (Hcases : d = 0 \/ d = 1 \/ d = 2 \/ d = 3 \/ d = 4 \/ d = 5
                   \/ d = 6 \/ d = 7 \/ d = 8 \/ d = 9 \/ d = 10 \/ d = 11
                   \/ d = 12 \/ d = 13 \/ d = 14 \/ d = 15) by lia.
  destruct Hcases
    as [->|[->|[->|[->|[->|[->|[->|[->|[->|[->|[->|[->|[->|[->|[->| ->]]]]]]]]]]]]]]];
    eexists; repeat split; reflexivity.
Qed.

(** More fuel than the number has digits changes nothing. *)
Lemma to_hex_digits_enough (fuel : nat) :
  forall (fuel' : nat) (n : Z) (acc : string),
    0 <= n < 16 ^ Z.of_nat (S fuel) -> (S fuel <= fuel')%nat ->
    to_hex_digits fuel' n acc = to_hex_digits (S fuel) n acc.
Proof.
  induction fuel as [|fuel IH]; intros fuel' n acc Hn Hfuel;
    destruct fuel' as [|fuel']; try lia; cbn [to_hex_digits].
  - assert (Hzero : n / 16 = 0) by (apply Z.div_small; cbn in Hn; lia).
    rewrite Hzero. reflexivity.
  - destruct (n / 16 =? 0) eqn:Hq; [reflexivity|].
    apply IH; [|lia].
    replace (16 ^ Z.of_nat (S (S fuel))) with (16 * 16 ^ Z.of_nat (S fuel))
      in Hn by (rewrite (Nat2Z.inj_succ (S fuel)), Z.pow_succ_r; lia).
    split; [apply Z.div_pos; lia|].
    apply Z.div_lt_upper_bound; lia.
Qed.

(** A 16-bit word has at most four digits. *)
Lemma toString16_word (n : Z) :
  0 <= n < 65536 -> toString16 n = to_hex_digits 4 n "".
Proof.
  intros Hn. unfold toString16.
  assert (Hfuel : forall k : nat,
             (k <= 3)%nat -> n < 16 ^ Z.of_nat (S k) ->
             (S k <= S (Z.to_nat (Z.log2 n)))%nat ->
             to_hex_digits (S (Z.to_nat (Z.log2 n))) n ""
             = to_hex_digits 4 n "").
  { intros k Hk Hlt Hlog.
    rewrite (to_hex_digits_enough k _ n "") by (try exact Hlog; lia).
    symmetry. apply to_hex_digits_enough; [lia|lia]. }
  destruct (Z.lt_ge_cases n 16) as [H1|H1];
    [apply (Hfuel 0%nat); [lia|cbn; lia|lia]|].
  destruct (Z.lt_ge_cases n 256) as [H2|H2].
  { apply (Hfuel 1%nat); [lia|cbn; lia|].
    pose proof (Z.log2_le_mono 16 n H1) as Hlog.
    change (Z.log2 16) with 4 in Hlog. lia. }
  destruct (Z.lt_ge_cases n 4096) as [H3|H3].
  { apply (Hfuel 2%nat); [lia|cbn; lia|].
    pose proof (Z.log2_le_mono 256 n H2) as Hlog.
    change (Z.log2 256) with 8 in Hlog. lia. }
  apply (Hfuel 3%nat); [lia|cbn; lia|].
  pose proof (Z.log2_le_mono 4096 n H3) as Hlog.
  change (Z.log2 4096) with 12 in Hlog. lia.
Qed.

(** [s4] writes a 16-bit word as the four lower-case digits of its value. *)
Lemma s4_spells (n : Z) : 0 <= n < 65536 -> spells4 (s4 n) n = true.
Proof.
  intros Hn. unfold s4. rewrite (toString16_word n Hn).
  destruct (lower_hex_digit (n mod 16)) as (c0 & E0 & H0 & V0);
    [apply Z.mod_pos_bound; lia|].
  destruct (lower_hex_digit (n / 16 mod 16)) as (c1 & E1 & H1 & V1);
    [apply Z.mod_pos_bound; lia|].
  destruct (lower_hex_digit (n / 16 / 16 mod 16)) as (c2 & E2 & H2 & V2);
    [apply Z.mod_pos_bound; lia|].
  destruct (lower_hex_digit (n / 16 / 16 / 16 mod 16)) as (c3 & E3 & H3 & V3);
    [apply Z.mod_pos_bound; lia|].
  cbn [to_hex_digits]. rewrite E0, E1, E2, E3.
  assert (Hzero : hex_value "0" = 0) by reflexivity.
  assert (Hdigit : is_lower_hex "0" = true) by reflexivity.
  destruct (Z.eqb_spec (n / 16) 0) as [Q1|Q1];
    [|destruct (Z.eqb_spec (n / 16 / 16) 0) as [Q2|Q2];
      [|destruct (Z.eqb_spec (n / 16 / 16 / 16) 0) as [Q3|Q3];
        [|destruct (n / 16 / 16 / 16 / 16 =? 0)]]];
    cbv [s4_pad String.append String.length Nat.ltb Nat.leb spells4];
    rewrite ?H0, ?H1, ?H2, ?H3, ?Hdigit, ?Hzero, ?V0, ?V1, ?V2, ?V3;
    cbn [andb]; apply Z.eqb_eq;
    Z.to_euclidean_division_equations; lia.
Qed.

Lemma spells4_inv (s : string) (n : Z) :
  spells4 s n = true ->
  exists a b c d,
    s = String a (String b (String c (String d EmptyString)))
    /\ is_lower_hex a = true /\ is_lower_hex b = true
    /\ is_lower_hex c = true /\ is_lower_hex d = true
    /\ ((hex_value a * 16 + hex_value b) * 16 + hex_value c) * 16
       + hex_value d = n.
Proof.
  intros H. destruct s as [|a [|b [|c [|d [|? ?]]]]]; try discriminate.
  cbn in H. repeat (apply andb_true_iff in H as [H ?]).
  exists a, b, c, d. repeat split; try assumption. lia.
Qed.

Lemma create_nonce_groups (random : list Z) :
  let g i := s4 (nth i random 0 mod 65536) in
  create_nonce random
  = ((((((((((("" +:+ g 0%nat) +:+ g 1%nat) +:+ "-") +:+ g 2%nat) +:+ "-")
          +:+ g 3%nat) +:+ "-") +:+ g 4%nat) +:+ "-") +:+ g 5%nat)
      +:+ g 6%nat) +:+ g 7%nat.
Proof. reflexivity. Qed.

Lemma create_nonce_spelled (random : list Z) :
  laid_out nonce_layout (create_nonce random) = true
  /\ String.length (create_nonce random) = 36%nat
  /\ nonce_words (create_nonce random) = uint16_array8 random.
Proof.
  rewrite create_nonce_groups. cbv zeta.
  assert (Hword : forall i, 0 <= nth i random 0 mod 65536 < 65536)
    by (intros i; apply Z.mod_pos_bound; lia).
  destruct (spells4_inv _ _ (s4_spells _ (Hword 0%nat)))
    as (a0 & b0 & c0 & d0 & -> & ? & ? & ? & ? & E0).
  destruct (spells4_inv _ _ (s4_spells _ (Hword 1%nat)))
    as (a1 & b1 & c1 & d1 & -> & ? & ? & ? & ? & E1).
  destruct (spells4_inv _ _ (s4_spells _ (Hword 2%nat)))
    as (a2 & b2 & c2 & d2 & -> & ? & ? & ? & ? & E2).
  destruct (spells4_inv _ _ (s4_spells _ (Hword 3%nat)))
    as (a3 & b3 & c3 & d3 & -> & ? & ? & ? & ? & E3).
  destruct (spells4_inv _ _ (s4_spells _ (Hword 4%nat)))
    as (a4 & b4 & c4 & d4 & -> & ? & ? & ? & ? & E4).
  destruct (spells4_inv _ _ (s4_spells _ (Hword 5%nat)))
    as (a5 & b5 & c5 & d5 & -> & ? & ? & ? & ? & E5).
  destruct (spells4_inv _ _ (s4_spells _ (Hword 6%nat)))
    as (a6 & b6 & c6 & d6 & -> & ? & ? & ? & ? & E6).
  destruct (spells4_inv _ _ (s4_spells _ (Hword 7%nat)))
    as (a7 & b7 & c7 & d7 & -> & ? & ? & ? & ? & E7).
  split; [|split].
  - cbv [String.append nonce_layout repeat app laid_out].
    repeat match goal with
           | H : is_lower_hex _ = true |- _ => rewrite H; clear H
           end.
    reflexivity.
  - reflexivity.
  - cbv [String.append nonce_words map String.substring hex_number
           list_ascii_of_string fold_left uint16_array8 seq].
    repeat f_equal; lia.
Qed.

(** X1. Whatever the random words, [create_nonce] returns 36 characters
    laid out as a GUID: groups of 8, 4, 4, 4 and 12 lower-case hexadecimal
    digits with a hyphen between them. *)
Theorem create_nonce_has_guid_layout (random : list Z) :
  laid_out nonce_layout (create_nonce random) = true
  /\ String.length (create_nonce random) = 36%nat.
Proof.
  destruct (create_nonce_spelled random) as (Hlayout & Hlength & _).
  split; assumption.
Qed.

(** X2. The nonce spells the eight random words, each taken modulo 2^16,
    so that two attempts get the same nonce exactly when their eight words
    agree modulo 2^16. *)
Theorem create_nonce_same_iff_same_words (random random' : list Z) :
  nonce_words (create_nonce random) = uint16_array8 random
  /\ (create_nonce random = create_nonce random'
      <-> uint16_array8 random = uint16_array8 random').
Proof.
  destruct (create_nonce_spelled random) as (_ & _ & Hwords).
  destruct (create_nonce_spelled random') as (_ & _ & Hwords').
  split; [exact Hwords|]. split.
  - intros Hsame. rewrite <- Hwords, <- Hwords', Hsame. reflexivity.
  - intros Hsame. unfold create_nonce. rewrite Hsame. reflexivity.
Qed.

Lemma lower_hex_unreserved (c : ascii) :
  is_lower_hex c = true -> unreserved c = true.
Proof.
  unfold is_lower_hex, unreserved. cbv zeta. intros H.
  apply orb_true_iff in H as [H|H]; apply andb_true_iff in H as [Hlo Hhi];
    apply Z.leb_le in Hlo, Hhi.
  - destruct (Z.leb_spec 48 (Z.of_nat (nat_of_ascii c))); [|lia].
    destruct (Z.leb_spec (Z.of_nat (nat_of_ascii c)) 57); [|lia].
    cbn. rewrite orb_true_r. reflexivity.
  - destruct (Z.leb_spec 97 (Z.of_nat (nat_of_ascii c))); [|lia].
    destruct (Z.leb_spec (Z.of_nat (nat_of_ascii c)) 122); [|lia].
    cbn. rewrite orb_true_r. reflexivity.
Qed.

Lemma laid_out_needs_no_encoding (layout : list bool) (s : string) :
  laid_out layout s = true -> encodeURIComponent s = s.
Proof.
  revert s. induction layout as [|hyphen layout IH]; intros s Hs.
  - destruct s; [reflexivity|discriminate].
  - destruct s as [|c s]; [discriminate|].
    cbn [laid_out] in Hs. apply andb_true_iff in Hs as [Hc Hrest].
    cbn [encodeURIComponent]. rewrite (IH _ Hrest).
    assert (Hun : unreserved c = true).
    { destruct hyphen; [|apply lower_hex_unreserved, Hc].
      apply Ascii.eqb_eq in Hc. subst c. reflexivity. }
    rewrite Hun. reflexivity.
Qed.

(** X3. A nonce is made of characters that [encodeURIComponent] leaves
    alone: encoding the nonce or the state changes nothing, so they are the
    same in the URL whether encoded or not. *)
Theorem create_nonce_needs_no_encoding (random : list Z) :
  encodeURIComponent (create_nonce random) = create_nonce random.
Proof.
  destruct (create_nonce_spelled random) as (Hlayout & _ & _).
  exact (laid_out_needs_no_encoding _ _ Hlayout).
Qed.

(** ** The badge *)

(** X4. The badge text is empty for a count of zero or less, the one digit
    for a count from 1 to 9, and "9+" for every count above 9: it is never
    longer than two characters. *)
Theorem badge_text_cases (count : Z) :
  badge_text count
  = (if count <=? 0 then ""
     else if count <=? 9
          then String (ascii_of_nat (Z.to_nat (48 + count))) EmptyString
          else "9+")
  /\ (String.length (badge_text count) <= 2)%nat.
Proof.
  unfold badge_text, gt. cbn [lt toString].
  destruct (Z.leb_spec count 0) as [Hneg|Hpos].
  - destruct (Z.ltb_spec 0 count); [lia|].
    destruct (Z.ltb_spec 9 count); [lia|]. split; [reflexivity|cbn; lia].
  - destruct (Z.ltb_spec 0 count); [|lia].
    destruct (Z.leb_spec count 9) as [Hdigit|Hmany].
    + destruct (Z.ltb_spec 9 count); [lia|].
      assert (Hcases : count = 1 \/ count = 2 \/ count = 3 \/ count = 4
                       \/ count = 5 \/ count = 6 \/ count = 7 \/ count = 8
                       \/ count = 9) by lia.
      destruct Hcases as [->|[->|[->|[->|[->|[->|[->|[->| ->]]]]]]]];
        (split; [reflexivity|vm_compute; lia]).
    + destruct (Z.ltb_spec 9 count); [|lia]. split; [reflexivity|cbn; lia].
Qed.

(** ** Serialized queries *)

Lemma append_associative (a b c : string) : (a +:+ b) +:+ c = a +:+ b +:+ c.
Proof.
  induction a as [|x a IH]; [reflexivity|].
  rewrite !append_String, IH. reflexivity.
Qed.

Lemma append_empty_r (a : string) : a +:+ "" = a.
Proof.
  induction a as [|x a IH]; [reflexivity|].
  rewrite append_String, IH. reflexivity.
Qed.

Lemma join_cons (sep p : string) (rest : list string) :
  rest <> [] -> join sep (p :: rest) = p +:+ sep +:+ join sep rest.
Proof. destruct rest; [congruence|reflexivity]. Qed.

Lemma query_get_first (done todo : query) (k : string) (v : jsval) :
  k ∉ keys done -> query_get (done ++ (k, v) :: todo)%list k = v.
Proof.
  induction done as [|[k' v'] done IH]; intros Hfresh; cbn.
  - rewrite String.eqb_refl. reflexivity.
  - destruct (String.eqb_spec k' k) as [->|_].
    + exfalso. apply Hfresh. cbn. left.
    + apply IH. intros Hin. apply Hfresh. cbn. right. exact Hin.
Qed.

Lemma keys_last (done : query) (k : string) (v : jsval) :
  index (keys (done ++ [(k, v)])%list)
    (length (keys (done ++ [(k, v)])%list) - 1)
  = JString k.
Proof.
  unfold index, keys. rewrite map_app. cbn [map fst].
  rewrite length_app. cbn [length].
  replace (length (map fst done) + 1 - 1)%nat with (length (map fst done))
    by lia.
  rewrite list_lookup_middle by reflexivity. reflexivity.
Qed.

Lemma keys_fresh (q done todo : query) (k : string) (v : jsval) :
  q = (done ++ (k, v) :: todo)%list -> NoDup (keys q) ->
  (k ∉ keys done) /\ (k ∉ keys todo).
Proof.
  intros -> Hnd. unfold keys in *. rewrite map_app in Hnd. cbn [map fst] in Hnd.
  apply NoDup_app in Hnd as (_ & Hdisj & Hrest).
  apply NoDup_cons in Hrest as [Hnotin _]. split; [|exact Hnotin].
  intros Hin. apply (Hdisj k Hin). left.
Qed.

Lemma chrome_url_fold (q done todo : query) (url : string) :
  q = (done ++ todo)%list -> NoDup (keys q) ->
  fold_left
    (fun url key =>
       let sep :=
         if bool_decide (JString key = index (keys q) (length (keys q) - 1))
         then "" else "&" in
       url +:+ key +:+ "=" +:+ to_string (query_get q key) +:+ sep)
    (keys todo) url
  = url +:+ join "&" (map pair_text todo).
Proof.
  revert done url. induction todo as [|[k v] todo IH]; intros done url Hq Hnd.
  - cbn. rewrite append_empty_r. reflexivity.
  - cbn [keys map fst fold_left].
    destruct (keys_fresh _ _ _ _ _ Hq Hnd) as [Hk Hk'].
    assert (Hget : query_get q k = v)
      by (rewrite Hq; apply query_get_first, Hk).
    rewrite Hget.
    specialize (IH (done ++ [(k, v)])%list).
    rewrite <- app_assoc in IH. cbn [app] in IH.
    change (map fst todo) with (keys todo).
    rewrite (IH _ Hq Hnd).
    destruct todo as [|kv' todo'].
    + assert (Hlast : index (keys q) (length (keys q) - 1) = JString k)
        by (rewrite Hq; apply keys_last).
      rewrite Hlast. rewrite bool_decide_eq_true_2 by reflexivity.
      cbn [map join]. unfold pair_text. cbn [fst snd].
      rewrite !append_empty_r. reflexivity.
    + assert (Hnot : JString k <> index (keys q) (length (keys q) - 1)).
      { rewrite Hq.
        destruct (exists_last (l := kv' :: todo') ltac:(discriminate))
          as (front & [kl vl] & Hsplit).
        rewrite Hsplit.
        replace (done ++ (k, v) :: front ++ [(kl, vl)])%list
          with ((done ++ (k, v) :: front) ++ [(kl, vl)])%list
          by (rewrite <- app_assoc; reflexivity).
        rewrite keys_last. intros [= ->].
        apply Hk'. rewrite Hsplit. unfold keys. rewrite map_app.
        apply elem_of_app. right. left. }
      rewrite bool_decide_eq_false_2 by exact Hnot.
      cbn [map].
      rewrite (join_cons "&" (pair_text (k, v))
                 (pair_text kv' :: map pair_text todo'))
        by (intros Hnil; discriminate Hnil).
      change (pair_text (k, v)) with (k +:+ "=" +:+ to_string v).
      rewrite !append_associative. reflexivity.
Qed.

Lemma generate_request_url_pairs (url : string) (query_data : query) :
  NoDup (keys query_data) ->
  Chrome.generate_request_url url query_data
  = url +:+ join "&" (map pair_text query_data).
Proof.
  intros Hnd. unfold Chrome.generate_request_url. cbv zeta.
  apply (chrome_url_fold query_data [] query_data url eq_refl Hnd).
Qed.

(** X5. For a query object, whose keys are distinct, [generate_request_url]
    appends to the URL the [key=value] pairs in key order with one '&'
    between two pairs and none after the last; an empty query leaves the
    URL as it is. Nothing is put between the URL and the first pair. *)
Theorem generate_request_url_joins_pairs (url : string) (query_data : query) :
  NoDup (keys query_data) ->
  Chrome.generate_request_url url query_data
  = url +:+ join "&" (map pair_text query_data)
  /\ Chrome.generate_request_url url [] = url.
Proof.
  intros Hnd. split; [apply generate_request_url_pairs, Hnd|reflexivity].
Qed.

Lemma generate_request_url_joins_pairs_witness :
  Chrome.generate_request_url "https://api/me/MailFolders?" Chrome.mail_query
  = "https://api/me/MailFolders?"
    +:+ join "&" (map pair_text Chrome.mail_query)
  /\ Chrome.generate_request_url "https://api/me/MailFolders?" []
     = "https://api/me/MailFolders?".
Proof.
  apply (generate_request_url_joins_pairs
           "https://api/me/MailFolders?" Chrome.mail_query).
  apply (bool_decide_unpack _). vm_compute. exact I.
Defined.

Lemma part000_url_fold (q done todo : query) (url : string) :
  q = (done ++ todo)%list -> NoDup (keys q) ->
  fold_left
    (fun request_url key =>
       request_url +:+ key +:+ "=" +:+ to_string (query_get q key) +:+ "&")
    (keys todo) url
  = url +:+ String.concat "" (map (fun kv => pair_text kv +:+ "&") todo).
Proof.
  revert done url. induction todo as [|[k v] todo IH]; intros done url Hq Hnd.
  - cbn. rewrite append_empty_r. reflexivity.
  - cbn [keys map fst fold_left].
    destruct (keys_fresh _ _ _ _ _ Hq Hnd) as [Hk _].
    assert (Hget : query_get q k = v)
      by (rewrite Hq; apply query_get_first, Hk).
    rewrite Hget.
    specialize (IH (done ++ [(k, v)])%list).
    rewrite <- app_assoc in IH. cbn [app] in IH.
    change (map fst todo) with (keys todo).
    rewrite (IH _ Hq Hnd).
    change (pair_text (k, v)) with (k +:+ "=" +:+ to_string v).
    destruct todo as [|kv' todo'].
    + cbn [map String.concat]. rewrite !append_associative, !append_empty_r.
      reflexivity.
    + cbn [map String.concat]. rewrite !append_associative. reflexivity.
Qed.

Lemma join_then_separator (sep : string) (parts : list string) :
  parts <> [] ->
  join sep parts +:+ sep
  = String.concat "" (map (fun p => p +:+ sep) parts).
Proof.
  induction parts as [|p parts IH]; [congruence|]. intros _.
  destruct parts as [|p' parts'].
  - cbn [join map String.concat]. reflexivity.
  - rewrite join_cons by (intros Hnil; discriminate Hnil).
    cbn [map String.concat] in *.
    rewrite !append_associative.
    rewrite IH by (intros Hnil; discriminate Hnil).
    destruct parts'; cbn [map String.concat];
      rewrite ?append_associative, ?append_empty; reflexivity.
Qed.

(** X6. The URL loop of part_000 writes the same pairs as
    [generate_request_url] of the chrome copy and then one more '&': for a
    query with at least one key its URL is the chrome URL followed by
    '&'. *)
Theorem part000_request_url_has_trailing_separator (url : string)
    (query : query) :
  NoDup (keys query) -> query <> [] ->
  Part000.request_url_of url query
  = Chrome.generate_request_url url query +:+ "&".
Proof.
  intros Hnd Hne. rewrite generate_request_url_pairs by exact Hnd.
  unfold Part000.request_url_of.
  rewrite (part000_url_fold query [] query url eq_refl Hnd).
  rewrite append_associative. f_equal.
  rewrite join_then_separator by (destruct query; [congruence|discriminate]).
  rewrite map_map. reflexivity.
Qed.

Lemma part000_request_url_has_trailing_separator_witness :
  Part000.request_url_of "https://login/authorize?" Chrome.mail_query
  = Chrome.generate_request_url "https://login/authorize?" Chrome.mail_query
    +:+ "&".
Proof.
  apply (part000_request_url_has_trailing_separator
           "https://login/authorize?" Chrome.mail_query).
  - apply (bool_decide_unpack _). vm_compute. exact I.
  - discriminate.
Defined.

(** ** What [authorize] and [fetch_message_count] ask for *)

Lemma chrome_authorize_query_keys (h : host) (m : moment) (interactive : bool)
    (s : session) :
  NoDup (keys (Chrome.authorize_query h m interactive s)).
Proof.
  unfold Chrome.authorize_query.
  destruct interactive; cbn [negb];
    [destruct (truthy (domain_type (user s)) && truthy (signin_name (user s)))|];
    apply (bool_decide_unpack _); vm_compute; exact I.
Qed.

(** X7. The URL that [authorize] of the chrome copy launches is the
    manifest's [auth_url] followed by the parameters below, joined by '&'.
    A silent attempt asks for [response_type=token] with [prompt=none] and
    always carries both hints, written "undefined" when the profile has
    none; an interactive attempt asks for [id_token%20token], never carries
    a prompt, and carries the hints only when the profile has both. *)
Theorem chrome_authorize_launches_url (h : host) (m : moment) (s : session) :
  let common :=
    ["client_id=" +:+ client_id (manifest h);
     "redirect_uri=" +:+ encodeURIComponent (redirect_url h)] in
  let middle :=
    ["scope=" +:+ encodeURIComponent (join " " (scopes (manifest h)));
     "response_mode=fragment";
     "nonce=" +:+ create_nonce (nonce_random m);
     "state=" +:+ create_nonce (state_random m)] in
  let hints :=
    ["domain_hint=" +:+ to_string (domain_type (user s));
     "login_hint=" +:+ to_string (signin_name (user s))] in
  snd (Chrome.authorize h m false s)
  = launchWebAuthFlow
      (auth_url (manifest h)
       +:+ join "&" (common ++ ["response_type=token"] ++ middle
                     ++ ["prompt=none"] ++ hints)%list)
      false
  /\ snd (Chrome.authorize h m true s)
     = launchWebAuthFlow
         (auth_url (manifest h)
          +:+ join "&"
                (common ++ ["response_type=id_token%20token"] ++ middle
                 ++ (if truthy (domain_type (user s))
                        && truthy (signin_name (user s))
                     then hints else []))%list)
         true.
Proof.
  cbv zeta. rewrite !chrome_authorize_effect. cbn [snd].
  rewrite !generate_request_url_pairs by apply chrome_authorize_query_keys.
  unfold Chrome.authorize_query. cbn [negb].
  destruct (truthy (domain_type (user s)) && truthy (signin_name (user s)));
    split; reflexivity.
Qed.

(** A visible text has no whitespace to strip and nothing that [Headers]
    refuses. *)
Lemma strip_trailing_visible (t : string) :
  visible_ascii t = true -> strip_trailing t = t.
Proof.
  unfold visible_ascii.
  induction t as [|c t IH]; [reflexivity|].
  cbn [list_ascii_of_string forallb strip_trailing]. intros Hvisible.
  apply andb_true_iff in Hvisible as [Hc Ht]. rewrite (IH Ht).
  destruct t as [|d t]; [|reflexivity].
  assert (Hws : http_whitespace c = false).
  { rewrite <- (ascii_nat_embedding c) in *.
    pose proof (nat_ascii_bounded c) as Hbound.
    rewrite nat_ascii_embedding in Hc by exact Hbound.
    apply andb_true_iff in Hc as [Hlo Hhi].
    apply Nat.ltb_lt in Hlo, Hhi.
    unfold http_whitespace. cbn [existsb].
    repeat match goal with
           | |- context [Ascii.eqb ?a ?b] =>
               destruct (Ascii.eqb_spec a b) as [Heq|_];
               [apply (f_equal nat_of_ascii) in Heq;
                rewrite !nat_ascii_embedding in Heq by lia; lia|]
           end.
    reflexivity. }
  rewrite Hws. reflexivity.
Qed.

Lemma strip_trailing_after (pre t : string) :
  t <> "" -> strip_trailing t = t -> strip_trailing (pre +:+ t) = pre +:+ t.
Proof.
  intros Hne Ht. induction pre as [|d pre IH]; [exact Ht|].
  rewrite append_String. cbn [strip_trailing]. rewrite IH.
  destruct (pre +:+ t) eqn:Hempty; [|reflexivity].
  destruct pre; [|discriminate]. rewrite append_empty in Hempty. contradiction.
Qed.

Lemma visible_ascii_accepted (t : string) :
  visible_ascii t = true ->
  forallb below_0xC4 (list_ascii_of_string t) = true
  /\ existsb nul_or_newline (list_ascii_of_string t) = false.
Proof.
  unfold visible_ascii. induction t as [|c t IH]; [split; reflexivity|].
  cbn [list_ascii_of_string forallb existsb]. intros Hvisible.
  apply andb_true_iff in Hvisible as [Hc Ht].
  destruct (IH Ht) as [-> ->].
  apply andb_true_iff in Hc as [Hlo Hhi]. apply Nat.ltb_lt in Hlo, Hhi.
  split.
  - rewrite andb_true_r. apply Nat.ltb_lt. lia.
  - rewrite orb_false_r. unfold nul_or_newline. cbn [existsb].
    rewrite orb_false_r.
    repeat match goal with
           | |- context [Ascii.eqb ?a ?b] =>
               destruct (Ascii.eqb_spec a b) as [Heq|_];
               [apply (f_equal nat_of_ascii) in Heq;
                rewrite !nat_ascii_embedding in Heq by lia; lia|]
           end.
    reflexivity.
Qed.

(** [Headers] stores a bearer token of visible characters as it is. *)
Lemma header_value_bearer (t : string) :
  t <> "" -> visible_ascii t = true ->
  header_value ("Bearer " +:+ t) = Some ("Bearer " +:+ t).
Proof.
  intros Hne Hvisible.
  destruct (visible_ascii_accepted t Hvisible) as [Hbytes Hclean].
  assert (Htrail : strip_trailing ("Bearer " +:+ t) = "Bearer " +:+ t)
    by (apply strip_trailing_after;
        [exact Hne|apply strip_trailing_visible, Hvisible]).
  unfold header_value.
  change (strip_leading ("Bearer " +:+ t)) with ("Bearer " +:+ t).
  cbv zeta. rewrite Htrail.
  change ("Bearer " +:+ t)
    with (String "B" (String "e" (String "a" (String "r" (String "e"
            (String "r" (String " " t))))))).
  cbn [list_ascii_of_string forallb existsb]. rewrite Hbytes, Hclean.
  reflexivity.
Qed.

(** [Headers] stores a visible text as it is. *)
Lemma header_value_visible (t : string) :
  visible_ascii t = true -> header_value t = Some t.
Proof.
  intros Hvisible.
  destruct (visible_ascii_accepted t Hvisible) as [Hbytes Hclean].
  unfold header_value. rewrite Hbytes. cbv zeta.
  assert (Hlead : strip_leading t = t).
  { destruct t as [|c t]; [reflexivity|].
    pose proof (strip_trailing_visible (String c EmptyString)) as Hc.
    unfold visible_ascii in Hvisible, Hc.
    cbn [list_ascii_of_string forallb] in Hvisible, Hc.
    apply andb_true_iff in Hvisible as [Hvc _].
    rewrite Hvc in Hc. specialize (Hc eq_refl).
    cbn [strip_trailing strip_leading] in *.
    destruct (http_whitespace c); [discriminate|reflexivity]. }
  rewrite Hlead, (strip_trailing_visible t Hvisible), Hclean. reflexivity.
Qed.

Lemma chrome_poll_url (h : host) :
  Chrome.generate_request_url (Chrome.mail_folders_url h) Chrome.mail_query
  = api_endpoint (manifest h)
    +:+ "/me/MailFolders?$filter=UnreadItemCount%20gt%200&$top=50".
Proof.
  rewrite generate_request_url_pairs
    by (apply (bool_decide_unpack _); vm_compute; exact I).
  unfold Chrome.mail_folders_url. rewrite append_associative. reflexivity.
Qed.

(** X8. An authorized instance polls with one request, or with none. It
    hands [Headers] the access token as a bearer token, [Accept], and the
    [x-AnchorMailbox] header exactly when the profile has a non-empty
    e-mail address. When [Headers] takes them, the poll is one GET,
    without a body, of [<api_endpoint>/me/MailFolders?] followed by the
    filter for folders with unread mail and the limit of 50, and the
    function waits for the answer; when it throws, no request is made and
    nothing waits. For a token and an address of visible characters it
    takes them as they are. *)
Theorem chrome_poll_request (h : host) (s : session) :
  is_authorized s = true ->
  Chrome.fetch_message_count h s
  = match Headers (chrome_headers s) with
    | Some headers =>
        (s,
         [fetch
            (api_endpoint (manifest h)
             +:+ "/me/MailFolders?$filter=UnreadItemCount%20gt%200&$top=50")
            {| credentials := None; method := "GET"; headers := headers;
               body := None |}],
         [Chrome.first_response])
    | None => (s, [uncaught], [])
    end
  /\ (forall token,
         access_token s = JString token -> token <> "" ->
         visible_ascii token = true ->
         (truthy (email (user s)) = true ->
          visible_ascii (to_string (email (user s))) = true) ->
         Headers (chrome_headers s) = Some (chrome_headers s)).
Proof.
  intros Hauth. split.
  - unfold Chrome.fetch_message_count. rewrite Hauth. cbn [negb].
    rewrite chrome_poll_url.
    unfold Chrome.make_remote_request, await_request.
    change (([("Authorization", "Bearer " +:+ to_string (access_token s));
              ("Accept", "application/json")]
             ++ [("x-AnchorMailbox", to_string (email (user s)))])%list)
      with (([("Authorization", "Bearer " +:+ to_string (access_token s));
               ("Accept", "application/json")]
              ++ (if true
                  then [("x-AnchorMailbox", to_string (email (user s)))]
                  else []))%list).
    unfold chrome_headers.
    destruct (truthy (email (user s))); cbn [app];
      destruct (Headers _); reflexivity.
  - intros token Htoken Hne Hvisible Hemail. unfold chrome_headers.
    rewrite Htoken. cbn [to_string]. cbn [app Headers].
    rewrite (header_value_bearer token Hne Hvisible).
    change (header_value "application/json") with (Some "application/json").
    destruct (truthy (email (user s))); cbn [Headers]; [|reflexivity].
    rewrite (header_value_visible _ (Hemail eq_refl)). reflexivity.
Qed.

Lemma chrome_poll_request_witness :
  Chrome.fetch_message_count Demo.the_host Demo.signed_in
  = (Demo.signed_in,
     [fetch "https://api/me/MailFolders?$filter=UnreadItemCount%20gt%200&$top=50"
        {| credentials := None; method := "GET";
           headers := [("Authorization", "Bearer stale");
                       ("Accept", "application/json");
                       ("x-AnchorMailbox", "ann@example.com")];
           body := None |}],
     [Chrome.first_response]).
Proof.
  rewrite (proj1 (chrome_poll_request Demo.the_host Demo.signed_in eq_refl)).
  reflexivity.
Defined.

(** ** More on parsing the redirect *)

Lemma split_free (c : ascii) (s : string) : free_of c s -> split c s = [s].
Proof.
  induction s as [|d s IH]; intros Hfree; [reflexivity|].
  destruct Hfree as [Hd Hs]. cbn [split].
  destruct (Ascii.eqb_spec d c) as [->|_]; [contradiction|].
  rewrite (IH Hs). reflexivity.
Qed.

Lemma indexOf_absent (c : ascii) (s : string) :
  free_of c s -> indexOf c s = -1.
Proof.
  induction s as [|d s IH]; intros Hfree; [reflexivity|].
  destruct Hfree as [Hd Hs]. cbn [indexOf].
  destruct (Ascii.eqb_spec d c) as [->|_]; [contradiction|].
  rewrite (IH Hs). reflexivity.
Qed.

Lemma indexOf_first (c : ascii) (before rest : string) :
  free_of c before ->
  indexOf c (before +:+ String c rest) = Z.of_nat (String.length before).
Proof.
  induction before as [|d before IH]; intros Hfree.
  - rewrite append_empty. cbn [indexOf]. rewrite Ascii.eqb_refl. reflexivity.
  - destruct Hfree as [Hd Hs]. rewrite append_String. cbn [indexOf].
    destruct (Ascii.eqb_spec d c) as [->|_]; [contradiction|].
    rewrite (IH Hs). cbv zeta.
    destruct (Z.ltb_spec (Z.of_nat (String.length before)) 0); [lia|].
    cbn [String.length]. lia.
Qed.

Lemma drop_chars_after (before rest : string) (c : ascii) :
  drop_chars (S (String.length before)) (before +:+ String c rest) = rest.
Proof.
  induction before as [|d before IH]; [rewrite append_empty; reflexivity|].
  rewrite append_String. cbn [String.length drop_chars]. exact IH.
Qed.

Lemma fragment_params_after_hash (before fragment : string) :
  free_of "#"%char before ->
  fragment_params (before +:+ "#" +:+ fragment) = split "&"%char fragment.
Proof.
  intros Hfree. unfold fragment_params.
  change ("#" +:+ fragment) with (String "#"%char fragment).
  rewrite (indexOf_first _ _ _ Hfree). unfold substring_from.
  replace (Z.to_nat (Z.max 0 (Z.of_nat (String.length before) + 1)))
    with (S (String.length before)) by lia.
  rewrite drop_chars_after. reflexivity.
Qed.

(** X9. [parse_auth_response] reads the parameters from the text after the
    first '#' of the redirect, whatever comes before it and whatever '#'
    follows; a redirect without any '#' is read as parameters from its
    first character on. *)
Theorem fragment_params_start_after_hash (before fragment : string) :
  free_of "#"%char before ->
  fragment_params (before +:+ "#" +:+ fragment) = split "&"%char fragment
  /\ fragment_params before = split "&"%char before.
Proof.
  intros Hfree. split; [apply fragment_params_after_hash, Hfree|].
  unfold fragment_params. rewrite (indexOf_absent _ _ Hfree). reflexivity.
Qed.

Lemma fragment_params_start_after_hash_witness :
  fragment_params ("https://ext/callback" +:+ "#" +:+ "a=1&b=2#c")
  = split "&"%char "a=1&b=2#c"
  /\ fragment_params "https://ext/callback"
     = split "&"%char "https://ext/callback".
Proof.
  apply (fragment_params_start_after_hash "https://ext/callback" "a=1&b=2#c").
  cbn. repeat split; discriminate.
Defined.

(** X10. What [parse_auth_response] returns for a key is decided by the
    last parameter filed under it: the text between that parameter's first
    and second '=', or undefined when the parameter has no '=' at all. The
    key [__proto__] is the exception: a parameter with that key is not
    stored, and the key reads the prototype of the result. *)
Theorem parse_auth_response_last_wins (response param : string)
    (before after : list string) :
  fragment_params response = (before ++ param :: after)%list ->
  Forall (fun p => param_key p <> param_key param) after ->
  (param_key param <> "__proto__" ->
   get (parse_auth_response response) (param_key param)
   = index (split "="%char param) 1
   /\ (free_of "="%char param ->
       param_key param = param
       /\ get (parse_auth_response response) param = JUndefined))
  /\ (param_key param = "__proto__" ->
      get (parse_auth_response response) (param_key param) = JObject).
Proof.
  intros Hparams Hafter. split.
  - intros Hproto.
    pose proof (parse_auth_response_last _ _ _ _ Hproto Hparams Hafter)
      as Hget.
    split; [exact Hget|]. intros Hfree.
    assert (Hkey : param_key param = param)
      by (unfold param_key; rewrite (split_free _ _ Hfree); reflexivity).
    split; [exact Hkey|].
    rewrite Hkey in Hget. rewrite Hget, (split_free _ _ Hfree). reflexivity.
  - intros ->. unfold get, parse_auth_response.
    rewrite fold_parse_param_proto, lookup_empty. reflexivity.
Qed.

Lemma parse_auth_response_last_wins_witness :
  (param_key "state=2" <> "__proto__" ->
   get (parse_auth_response "https://ext/callback#state=1&state=2&x")
     (param_key "state=2")
   = index (split "="%char "state=2") 1
   /\ (free_of "="%char "state=2" ->
       param_key "state=2" = "state=2"
       /\ get (parse_auth_response "https://ext/callback#state=1&state=2&x")
            "state=2" = JUndefined))
  /\ (param_key "state=2" = "__proto__" ->
      get (parse_auth_response "https://ext/callback#state=1&state=2&x")
        (param_key "state=2") = JObject).
Proof.
  apply (parse_auth_response_last_wins
           "https://ext/callback#state=1&state=2&x" "state=2"
           ["state=1"] ["x"]).
  - reflexivity.
  - constructor; [|constructor]. vm_compute. discriminate.
Defined.

Lemma inherited_nothing (key : string) :
  key ∉ map fst Object_prototype -> inherited key = JUndefined.
Proof.
  intros Hnot. unfold inherited.
  destruct (List.find (fun kv => String.eqb (fst kv) key) Object_prototype)
    as [kv|] eqn:Hfind; [|reflexivity].
  apply List.find_some in Hfind as [Hin Heq].
  apply String.eqb_eq in Heq. exfalso. apply Hnot. rewrite <- Heq.
  apply list_elem_of_fmap. exists kv. split; [reflexivity|].
  apply list_elem_of_In. exact Hin.
Qed.

(** X11. A key that no parameter of the redirect is filed under reads what
    every plain object inherits under it: undefined, unless it is one of
    the twelve properties of [Object.prototype]. [id_token],
    [access_token] and [error_message] of a redirect that does not carry
    them are undefined. *)
Theorem parse_auth_response_missing_key (response key : string) :
  Forall (fun p => param_key p <> key) (fragment_params response) ->
  get (parse_auth_response response) key = inherited key
  /\ (key ∉ map fst Object_prototype ->
      get (parse_auth_response response) key = JUndefined)
  /\ (key = "id_token" \/ key = "access_token" \/ key = "error_message" ->
      get (parse_auth_response response) key = JUndefined).
Proof.
  intros Hnone.
  assert (Hget : get (parse_auth_response response) key = inherited key).
  { unfold get, parse_auth_response.
    rewrite (fold_parse_param_other _ _ _ Hnone), lookup_empty. reflexivity. }
  split; [exact Hget|]. split.
  - intros Hkey. rewrite Hget. apply inherited_nothing. exact Hkey.
  - intros [-> |[-> | ->]]; rewrite Hget; reflexivity.
Qed.

Lemma parse_auth_response_missing_key_witness :
  get (parse_auth_response "https://ext/callback#error=access_denied")
    "id_token"
  = JUndefined
  /\ get (parse_auth_response "https://ext/callback#error=access_denied")
       "toString"
     = JFunction "toString" 0.
Proof.
  split.
  - apply (parse_auth_response_missing_key
             "https://ext/callback#error=access_denied" "id_token");
      [|left; reflexivity].
    let params :=
      eval vm_compute in
        (fragment_params "https://ext/callback#error=access_denied") in
    change (fragment_params "https://ext/callback#error=access_denied")
      with params.
    constructor; [|constructor].
    vm_compute. discriminate.
  - apply (parse_auth_response_missing_key
             "https://ext/callback#error=access_denied" "toString").
    let params :=
      eval vm_compute in
        (fragment_params "https://ext/callback#error=access_denied") in
    change (fragment_params "https://ext/callback#error=access_denied")
      with params.
    constructor; [|constructor].
    vm_compute. discriminate.
Defined.

(** ** What an accepted token changes *)

(** X12. When [validate_id_token] returns true it has written three fields
    of the profile and nothing else: [display_name] and [signin_name] are
    the token's [name] and [preferred_username], and [domain_type] is
    "consumers" exactly for the consumer tenant and "organizations" for any
    other; the e-mail address, the tokens, the nonce and [is_authorized]
    are as before. *)
Theorem validate_id_token_acceptance_writes (h : host) (now : Z)
    (token : jsval) (s s' : session) :
  validate_id_token h now token s = Returned (true, s') ->
  exists t d,
    token = JString t /\ jwt_decode h t = Some d
    /\ display_name (user s') = name d
    /\ signin_name (user s') = preferred_username d
    /\ (tid d = "9188040d-6c67-4c5b-b112-36a304b66dad" ->
        domain_type (user s') = JString "consumers")
    /\ (tid d <> "9188040d-6c67-4c5b-b112-36a304b66dad" ->
        domain_type (user s') = JString "organizations")
    /\ email (user s') = email (user s)
    /\ access_token s' = access_token s /\ id_token s' = id_token s
    /\ current_nonce s' = current_nonce s
    /\ is_authorized s' = is_authorized s.
Proof.
  intros Hret.
  destruct (validate_id_token_true_inv _ _ _ _ _ Hret)
    as (t & d & -> & _ & _ & Hdec & _ & ->).
  exists t, d. cbn. repeat split; try assumption.
  - intros ->. reflexivity.
  - intros Hother. unfold consumer_tenant.
    destruct (String.eqb_spec (tid d) "9188040d-6c67-4c5b-b112-36a304b66dad");
      [contradiction|reflexivity].
Qed.

Lemma validate_id_token_acceptance_writes_witness :
  exists t d,
    JString "h.p.s" = JString t /\ jwt_decode Demo.the_host t = Some d
    /\ display_name (user Demo.signed_in) = name d
    /\ signin_name (user Demo.signed_in) = preferred_username d
    /\ (tid d = "9188040d-6c67-4c5b-b112-36a304b66dad" ->
        domain_type (user Demo.signed_in) = JString "consumers")
    /\ (tid d <> "9188040d-6c67-4c5b-b112-36a304b66dad" ->
        domain_type (user Demo.signed_in) = JString "organizations")
    /\ email (user Demo.signed_in) = email (user Demo.signed_in)
    /\ access_token Demo.signed_in = access_token Demo.signed_in
    /\ id_token Demo.signed_in = id_token Demo.signed_in
    /\ current_nonce Demo.signed_in = current_nonce Demo.signed_in
    /\ is_authorized Demo.signed_in = is_authorized Demo.signed_in.
Proof.
  apply (validate_id_token_acceptance_writes
           Demo.the_host 1500000 (JString "h.p.s") Demo.signed_in
           Demo.signed_in).
  reflexivity.
Defined.

(** ** Responses of the mail API *)

(** X13. A first response with a status of 500 or more is logged and
    dropped in both copies: no web auth flow is launched, no request is
    made again, the badge and the instance are left as they are, and
    nothing is left waiting. *)
Theorem server_error_is_logged_and_dropped (h : host) (m : moment)
    (r : response) (s : session) :
  500 <= status r ->
  Chrome.fetch_message_count_first h m r s
  = (s, [console_error "Fetch message count failed!"; console_log_response r],
     [])
  /\ Part000.fetch_message_count_first h m r s
     = (s, [console_error "Fetch message count failed!";
            console_log_response r], []).
Proof.
  intros Hstatus.
  assert (Hok : ok r = false).
  { unfold ok. destruct (Z.leb_spec (status r) 299); [lia|].
    apply andb_false_r. }
  assert (Hlt : (status r <? 500) = false) by (apply Z.ltb_ge; lia).
  unfold Chrome.fetch_message_count_first, Part000.fetch_message_count_first,
    Chrome.fetch_message_count_finish, Part000.fetch_message_count_finish.
  rewrite Hok, Hlt. cbn [negb andb]. split; reflexivity.
Qed.

Lemma server_error_is_logged_and_dropped_witness :
  Chrome.fetch_message_count_first Demo.the_host Demo.noon
    {| status := 503; value := []; EmailAddress := JUndefined |}
    Demo.signed_in
  = (Demo.signed_in,
     [console_error "Fetch message count failed!";
      console_log_response
        {| status := 503; value := []; EmailAddress := JUndefined |}], [])
  /\ Part000.fetch_message_count_first Demo.the_host Demo.noon
       {| status := 503; value := []; EmailAddress := JUndefined |}
       Demo.signed_in
     = (Demo.signed_in,
        [console_error "Fetch message count failed!";
         console_log_response
           {| status := 503; value := []; EmailAddress := JUndefined |}], []).
Proof.
  apply (server_error_is_logged_and_dropped Demo.the_host Demo.noon
           {| status := 503; value := []; EmailAddress := JUndefined |}
           Demo.signed_in).
  cbn. lia.
Defined.

(** X14. A failed answer to the second request is logged and dropped
    whatever its status, a 401 too: [fetch_message_count] reauthorizes at
    most once, and the turn leaves nothing waiting. *)
Theorem failed_retry_is_not_retried (h : host) (m : moment) (r : response)
    (s : session) :
  ok r = false ->
  Chrome.resume h m Chrome.retried_response (Chrome.http r) s
  = Some (s, [console_error "Fetch message count failed!";
              console_log_response r], [])
  /\ Part000.resume h m Part000.retried_response (Part000.http r) s
     = Some (s, [console_error "Fetch message count failed!";
                 console_log_response r], []).
Proof.
  intros Hok. cbn [Chrome.resume Part000.resume].
  unfold Chrome.fetch_message_count_finish, Part000.fetch_message_count_finish.
  rewrite Hok. split; reflexivity.
Qed.

Lemma failed_retry_is_not_retried_witness :
  Chrome.resume Demo.the_host Demo.noon Chrome.retried_response
    (Chrome.http Demo.unauthorized_401) Demo.signed_in
  = Some (Demo.signed_in,
          [console_error "Fetch message count failed!";
           console_log_response Demo.unauthorized_401], [])
  /\ Part000.resume Demo.the_host Demo.noon Part000.retried_response
       (Part000.http Demo.unauthorized_401) Demo.signed_in
     = Some (Demo.signed_in,
             [console_error "Fetch message count failed!";
              console_log_response Demo.unauthorized_401], []).
Proof.
  apply (failed_retry_is_not_retried Demo.the_host Demo.noon
           Demo.unauthorized_401 Demo.signed_in).
  reflexivity.
Defined.



(** ** Finishing an authorization, continued *)

(** X16. When the web auth flow ends with [lastError], [finish_auth] logs
    the error and leaves the instance as it was: it launches no other
    flow, interactive or not, and writes nothing to the store. The only
    thing that may follow in the same turn is the second request of a
    [fetch_message_count] that was waiting for this attempt, which then
    waits for its answer (unless building the request threw). *)
Theorem failed_auth_flow_is_not_escalated (h : host) (m : moment)
    (message : string) (interactive awaited : bool) (s : session) :
  Chrome.finish_auth h m (lastError message) interactive awaited s
  = (s,
     console_error message
     :: (if awaited
         then [Chrome.make_remote_request s (Chrome.mail_folders_url h)
                 (Some Chrome.mail_query)]
         else []),
     if awaited
        && is_fetch (Chrome.make_remote_request s (Chrome.mail_folders_url h)
                       (Some Chrome.mail_query))
     then [Chrome.retried_response] else [])
  /\ Part000.auth_callback h m (lastError message) s
     = (s, [console_error message], []).
Proof.
  destruct awaited; (split; [|reflexivity]); [|reflexivity].
  unfold Chrome.finish_auth, Chrome.callback, Chrome.fetch_message_count_retry,
    await_request.
  destruct (is_fetch _); reflexivity.
Qed.

(** X17. When [finish_auth] accepts the ID token of a redirect, the
    instance becomes authorized with the redirect's [id_token] and
    [access_token] and the profile that the validation wrote. The only
    thing done in that turn is one GET of [<api_endpoint>/me] that already
    carries the new access token; nothing is written to the store and a
    waiting [fetch_message_count] is not resumed before that request is
    answered. When [Headers] refuses the new token or the e-mail address,
    the turn ends with the uncaught exception instead: the instance is
    authorized all the same, and nothing waits for an answer. *)
Theorem finish_auth_accepted_redirect (h : host) (m : moment)
    (result : string) (interactive awaited : bool) (s s1 : session) :
  validate_id_token h (now m) (get (parse_auth_response result) "id_token") s
  = Returned (true, s1) ->
  let s2 :=
    {| is_authorized := true;
       access_token := get (parse_auth_response result) "access_token";
       id_token := get (parse_auth_response result) "id_token";
       current_nonce := current_nonce s;
       user := user s1 |} in
  Chrome.finish_auth h m (redirect result) interactive awaited s
  = match Headers (chrome_headers s2) with
    | Some headers =>
        (s2,
         [fetch (api_endpoint (manifest h) +:+ "/me")
            {| credentials := None; method := "GET"; headers := headers;
               body := None |}],
         [Chrome.me_response awaited])
    | None => (s2, [uncaught], [])
    end
  /\ email (user s2) = email (user s)
  /\ ("Authorization",
      "Bearer " +:+ to_string (get (parse_auth_response result) "access_token"))
     ∈ chrome_headers s2.
Proof.
  intros Haccept. cbv zeta. unfold Chrome.finish_auth. rewrite Haccept.
  destruct (validate_id_token_true_inv _ _ _ _ _ Haccept)
    as (t & d & _ & _ & _ & _ & _ & ->).
  split; [|split; [reflexivity|left]].
  unfold Chrome.make_remote_request, Chrome.me_url, await_request,
    chrome_headers.
  cbn [set_tokens set_user accepted_user user email access_token].
  destruct (truthy (email (user s))); cbn [app];
    destruct (Headers _); reflexivity.
Qed.

Lemma finish_auth_accepted_redirect_witness :
  Chrome.finish_auth Demo.the_host Demo.noon
    (redirect "https://ext/callback#access_token=fresh&id_token=h.p.s")
    true false Demo.signed_in
  = ({| is_authorized := true; access_token := JString "fresh";
        id_token := JString "h.p.s";
        current_nonce := JString Demo.zero_nonce; user := Demo.ann |},
     [fetch "https://api/me"
        {| credentials := None; method := "GET";
           headers := [("Authorization", "Bearer fresh");
                       ("Accept", "application/json");
                       ("x-AnchorMailbox", "ann@example.com")];
           body := None |}],
     [Chrome.me_response false]).
Proof.
  rewrite (proj1 (finish_auth_accepted_redirect Demo.the_host Demo.noon
                    "https://ext/callback#access_token=fresh&id_token=h.p.s"
                    true false Demo.signed_in Demo.signed_in eq_refl)).
  reflexivity.
Defined.

Lemma initialize_stored (data s : session) :
  Chrome.initialize (Some data) s = data.
Proof. destruct data. reflexivity. Qed.







(** X19. In part_000 an accepted redirect makes the instance authorized,
    logs it, writes it to the store and polls the mail folders at once,
    within the same turn, with the access token of the redirect. When
    [Headers] refuses that token, the instance is logged and written all
    the same, and the poll ends with the uncaught exception before any
    request. *)
Theorem part000_accepted_redirect_polls_at_once (h : host) (m : moment)
    (result : string) (s s1 : session) :
  validate_id_token h (now m) (get (parse_auth_response result) "id_token") s
  = Returned (true, s1) ->
  let s2 :=
    {| is_authorized := true;
       access_token := get (parse_auth_response result) "access_token";
       id_token := get (parse_auth_response result) "id_token";
       current_nonce := current_nonce s;
       user := user s1 |} in
  Part000.auth_callback h m (redirect result) s
  = match Headers (part000_headers s2) with
    | Some headers =>
        (s2,
         [console_log_this s2; storage_sync_set s2;
          fetch (api_endpoint (manifest h) +:+ "/me/MailFolders")
            {| credentials := Some "include"; method := "GET";
               headers := headers; body := None |}],
         [Part000.first_response])
    | None => (s2, [console_log_this s2; storage_sync_set s2; uncaught], [])
    end
  /\ part000_headers s2
     = [("Authorization",
         "Bearer "
         +:+ to_string (get (parse_auth_response result) "access_token"));
        ("Accept", "application/json")].
Proof.
  intros Haccept. cbv zeta. unfold Part000.auth_callback. rewrite Haccept.
  destruct (validate_id_token_true_inv _ _ _ _ _ Haccept)
    as (t & d & _ & _ & _ & _ & _ & ->).
  split; [|reflexivity].
  unfold Part000.fetch_message_count, Part000.make_remote_request,
    await_request, part000_headers.
  cbn [set_tokens set_user accepted_user user is_authorized access_token negb].
  destruct (Headers _); reflexivity.
Qed.

Lemma part000_accepted_redirect_polls_at_once_witness :
  fst (fst (Part000.auth_callback Demo.the_host Demo.noon
              (redirect "https://ext/callback#access_token=fresh&id_token=h.p.s")
              Demo.signed_in))
  = {| is_authorized := true; access_token := JString "fresh";
       id_token := JString "h.p.s";
       current_nonce := JString Demo.zero_nonce; user := Demo.ann |}.
Proof.
  rewrite (proj1 (part000_accepted_redirect_polls_at_once Demo.the_host
                    Demo.noon
                    "https://ext/callback#access_token=fresh&id_token=h.p.s"
                    Demo.signed_in Demo.signed_in eq_refl)).
  reflexivity.
Defined.

(** ** What a turn may change *)

Section Moves.

Context (h : host).

Lemma authorize_moves (m : moment) (interactive : bool) (s : session) :
  session_moves h m s (fst (Chrome.authorize h m interactive s))
  /\ writes_only (fst (Chrome.authorize h m interactive s))
       [snd (Chrome.authorize h m interactive s)].
Proof.
  rewrite chrome_authorize_effect. split; [apply moves_nonce|].
  repeat constructor.
Qed.

Ltac no_write :=
  unfold writes_only, await_request, Chrome.make_remote_request;
  repeat match goal with
         | |- context [Headers ?init] => destruct (Headers init)
         end;
  repeat (constructor; try exact I).

Lemma fetch_message_count_moves (m : moment) (s : session) :
  turn_moves h m s (Chrome.fetch_message_count h s).
Proof.
  unfold Chrome.fetch_message_count.
  destruct (is_authorized s); cbn [negb]; split; cbn;
    try apply moves_nothing; no_write.
Qed.

Lemma fetch_message_count_finish_moves (m : moment) (r : response)
    (s : session) :
  turn_moves h m s (Chrome.fetch_message_count_finish r s).
Proof.
  unfold Chrome.fetch_message_count_finish.
  destruct (ok r); cbn [negb]; split; cbn; try apply moves_nothing; no_write.
Qed.

Lemma fetch_message_count_first_moves (m : moment) (r : response)
    (s : session) :
  turn_moves h m s (Chrome.fetch_message_count_first h m r s).
Proof.
  unfold Chrome.fetch_message_count_first.
  destruct (negb (ok r) && (status r <? 500)).
  - rewrite chrome_authorize_effect. split; cbn; [apply moves_nonce|no_write].
  - apply fetch_message_count_finish_moves.
Qed.

Lemma finish_auth_moves (m : moment) (r : auth_result)
    (interactive awaited : bool) (s : session) :
  turn_moves h m s (Chrome.finish_auth h m r interactive awaited s).
Proof.
  unfold Chrome.finish_auth. destruct r as [message|result].
  - destruct awaited; split; cbn; try apply moves_nothing; no_write.
  - destruct (validate_id_token h (now m)
                (get (parse_auth_response result) "id_token") s)
      as [[[|] s']|] eqn:Hval.
    + destruct (validate_id_token_true_inv _ _ _ _ _ Hval)
        as (t & d & Htok & Hne & Hlen & Hdec & Hchecks & ->).
      split; cbn; [|no_write]. rewrite Htok.
      apply moves_tokens; assumption.
    + pose proof (validate_id_token_false_unchanged _ _ _ _ _ Hval) as ->.
      destruct interactive; cbn [negb].
      * split; cbn; [apply moves_nothing|no_write].
      * rewrite chrome_authorize_effect.
        split; cbn; [apply moves_nonce|no_write].
    + split; cbn; [apply moves_nothing|no_write].
Qed.

Lemma finish_auth_me_moves (m : moment) (awaited : bool) (r : response)
    (s : session) :
  turn_moves h m s (Chrome.finish_auth_me h awaited r s).
Proof.
  unfold Chrome.finish_auth_me.
  destruct (ok r), awaited; split; cbn;
    try apply moves_email; try apply moves_nothing;
    (constructor; [reflexivity|no_write]).
Qed.

Lemma onClicked_moves (m : moment) (s : session) :
  turn_moves h m s (Chrome.onClicked h m s).
Proof.
  unfold Chrome.onClicked. destruct (is_authorized s); cbn [negb].
  - split; cbn; [apply moves_nothing|no_write].
  - rewrite chrome_authorize_effect. split; cbn; [apply moves_nonce|no_write].
Qed.

Lemma resume_moves (m : moment) (t : Chrome.task) (a : Chrome.arrival)
    (s : session) (t' : Chrome.turn) :
  Chrome.resume h m t a s = Some t' -> turn_moves h m s t'.
Proof.
  intros Hresume.
  destruct t, a; cbn in Hresume; try discriminate; injection Hresume as <-;
    auto using fetch_message_count_moves, fetch_message_count_finish_moves,
      fetch_message_count_first_moves, finish_auth_moves,
      finish_auth_me_moves.
Qed.

Lemma stored_value_twice (old v : jsval) :
  default (default old (stored_value v)) (stored_value v)
  = default old (stored_value v).
Proof. destruct v; reflexivity. Qed.

Lemma stored_record_twice (old s : session) :
  stored_record (stored_record old s) s = stored_record old s.
Proof.
  unfold stored_record. cbn [access_token id_token current_nonce].
  rewrite !stored_value_twice. reflexivity.
Qed.

Lemma written_only (s : session) (effects : list effect)
    (stored : option session) :
  writes_only s effects ->
  written effects stored = stored
  \/ written effects stored = storage_sync_write stored s.
Proof.
  unfold written. revert stored.
  induction effects as [|e effects IH]; intros stored Hw; [left; reflexivity|].
  inversion Hw as [|? ? He Hrest]; subst. cbn [fold_left].
  destruct e; try (apply IH; exact Hrest).
  subst data. right.
  destruct (IH (storage_sync_write stored s) Hrest) as [->| ->];
    [reflexivity|].
  unfold storage_sync_write. cbn [from_option id].
  rewrite stored_record_twice. reflexivity.
Qed.

(** Every event but a restart moves the instance in one of the four ways,
    and leaves the store as it was or writes the instance as it now is. *)
Lemma step_moves (m : moment) (e : Chrome.event) (st : Chrome.state) :
  e <> Chrome.reload ->
  session_moves h m (Chrome.this st) (Chrome.this (fst (Chrome.step h m e st)))
  /\ (Chrome.store (fst (Chrome.step h m e st)) = Chrome.store st
      \/ Chrome.store (fst (Chrome.step h m e st))
         = storage_sync_write (Chrome.store st)
             (Chrome.this (fst (Chrome.step h m e st)))).
Proof.
  intros Hevent.
  assert (Hafter : forall waiting t,
             turn_moves h m (Chrome.this st) t ->
             session_moves h m (Chrome.this st)
               (Chrome.this (fst (Chrome.after st waiting t)))
             /\ (Chrome.store (fst (Chrome.after st waiting t)) = Chrome.store st
                 \/ Chrome.store (fst (Chrome.after st waiting t))
                    = storage_sync_write (Chrome.store st)
                        (Chrome.this (fst (Chrome.after st waiting t))))).
  { intros waiting [[s effects] tasks] [Hmove Hw]. cbn in *.
    split; [exact Hmove|]. apply written_only. exact Hw. }
  assert (Hstay : session_moves h m (Chrome.this st) (Chrome.this st)
                  /\ (Chrome.store st = Chrome.store st
                      \/ Chrome.store st
                         = storage_sync_write (Chrome.store st) (Chrome.this st)))
    by (split; [apply moves_nothing|left; reflexivity]).
  destruct e as [| |i a|]; cbn [Chrome.step]; [..|congruence].
  - apply Hafter, fetch_message_count_moves.
  - apply Hafter, onClicked_moves.
  - destruct (Chrome.pending st !! i) as [t|]; [|exact Hstay].
    destruct (Chrome.resume h m t a (Chrome.this st)) as [t'|] eqn:Hresume;
      [|exact Hstay].
    apply Hafter. exact (resume_moves _ _ _ _ _ Hresume).
Qed.

(** A property of the instance that the four moves keep, and that the
    store keeps when it takes a new record over an old one, holds in every
    state the page can reach and of the record in the store. *)
Lemma reachable_keeps (P : session -> Prop) :
  P constructor ->
  (forall m s s', P s -> session_moves h m s s' -> P s') ->
  (forall old s, P old -> P s -> P (stored_record old s)) ->
  forall st,
    Chrome.reachable h st ->
    P (Chrome.this st) /\ forall data, Chrome.store st = Some data -> P data.
Proof.
  intros Hinit Hkeeps Hstores st Hreach.
  induction Hreach as [|m e st _ [Hthis Hstore]].
  - split; [exact Hinit|discriminate].
  - assert (Hcases : e = Chrome.reload \/ e <> Chrome.reload)
      by (destruct e; (left; reflexivity) || (right; discriminate)).
    destruct Hcases as [->|Hevent].
    + cbn. split; [|exact Hstore].
      destruct (Chrome.store st) as [data|] eqn:Hdata.
      * rewrite initialize_stored. apply Hstore. reflexivity.
      * exact Hinit.
    + destruct (step_moves m e st Hevent) as [Hmove Hwritten].
      assert (Hnew : P (Chrome.this (fst (Chrome.step h m e st))))
        by exact (Hkeeps _ _ _ Hthis Hmove).
      split; [exact Hnew|]. intros data Hdata.
      destruct Hwritten as [Hsame|Hnow].
      * apply Hstore. rewrite <- Hsame. exact Hdata.
      * rewrite Hnow in Hdata. injection Hdata as <-.
        apply Hstores; [|exact Hnew].
        destruct (Chrome.store st) as [old|]; [|exact Hinit].
        apply Hstore. reflexivity.
Qed.

End Moves.

(** ** What the page never does *)

(** X20. No handler signs the user out: whatever event the page handles,
    short of a restart, an authorized instance is still authorized
    afterwards, also after a failed poll, a failed reauthorization or a
    rejected ID token. *)
Theorem is_authorized_is_never_reset (h : host) (m : moment)
    (e : Chrome.event) (st : Chrome.state) :
  e <> Chrome.reload ->
  is_authorized (Chrome.this st) = true ->
  is_authorized (Chrome.this (fst (Chrome.step h m e st))) = true.
Proof.
  intros Hevent Hauth.
  destruct (step_moves h m e st Hevent) as [Hmove _].
  destruct Hmove; cbn; try assumption; reflexivity.
Qed.

Lemma is_authorized_is_never_reset_witness :
  is_authorized
    (Chrome.this
       (fst (Chrome.step Demo.the_host Demo.noon
               (Chrome.arrives 0
                  (Chrome.auth
                     (redirect "https://ext/callback#error=login_required")))
               {| Chrome.this := Demo.signed_in;
                  Chrome.pending := [Chrome.auth_flow true false];
                  Chrome.store := None |})))
  = true.
Proof.
  apply (is_authorized_is_never_reset Demo.the_host Demo.noon).
  - discriminate.
  - reflexivity.
Defined.

(** X21. The tokens, [is_authorized] and the names in the profile change
    only in a turn that accepted an ID token: if any of them differs after
    an event other than a restart, the page decoded a non-empty token of
    three segments whose nonce, audience, issuer and time window checked
    out against the instance as it was, and the new instance is the old
    one with that token, the tokens' profile and [is_authorized] true. *)
Theorem tokens_change_only_on_accepted_token (h : host) (m : moment)
    (e : Chrome.event) (st : Chrome.state) :
  e <> Chrome.reload ->
  let s := Chrome.this st in
  let s' := Chrome.this (fst (Chrome.step h m e st)) in
  access_token s' <> access_token s \/ id_token s' <> id_token s
  \/ is_authorized s' <> is_authorized s
  \/ display_name (user s') <> display_name (user s)
  \/ signin_name (user s') <> signin_name (user s)
  \/ domain_type (user s') <> domain_type (user s) ->
  exists t d access,
    t <> "" /\ length (split "."%char t) = 3%nat
    /\ jwt_decode h t = Some d /\ payload_checks h (now m) s d
    /\ (forall n x,
           nbf d = finite n -> exp d = finite x ->
           Z.abs ((n - 300) * 1000) <= 8640000000000000 ->
           Z.abs ((x + 300) * 1000) <= 8640000000000000 ->
           (n - 300) * 1000 <= now m <= (x + 300) * 1000)
    /\ s' = set_tokens (set_user s (accepted_user s d)) (JString t) access.
Proof.
  intros Hevent. cbv zeta.
  destruct (step_moves h m e st Hevent) as [Hmove _].
  destruct Hmove as [| |address|t d access Hne Hlen Hdec Hchecks]; cbn;
    intros Hchanged.
  - exfalso. intuition congruence.
  - exfalso. intuition congruence.
  - exfalso. intuition congruence.
  - exists t, d, access.
    split; [exact Hne|]. split; [exact Hlen|]. split; [exact Hdec|].
    split; [exact Hchecks|]. split; [|reflexivity].
    intros n x Hnbf Hexp Hn Hx.
    apply (ordinary_dates_window (now m) n x d Hnbf Hexp Hn Hx).
    destruct Hchecks as (_ & _ & _ & Hwindow). exact Hwindow.
Qed.

Lemma tokens_change_only_on_accepted_token_witness :
  exists t d access,
    t <> "" /\ length (split "."%char t) = 3%nat
    /\ jwt_decode Demo.the_host t = Some d
    /\ payload_checks Demo.the_host (now Demo.noon) Demo.signed_in d
    /\ (forall n x,
           nbf d = finite n -> exp d = finite x ->
           Z.abs ((n - 300) * 1000) <= 8640000000000000 ->
           Z.abs ((x + 300) * 1000) <= 8640000000000000 ->
           (n - 300) * 1000 <= now Demo.noon <= (x + 300) * 1000)
    /\ Chrome.this
         (fst (Chrome.step Demo.the_host Demo.noon
                 (Chrome.arrives 0
                    (Chrome.auth
                       (redirect
                          "https://ext/callback#access_token=fresh&id_token=h.p.s")))
                 {| Chrome.this := Demo.signed_in;
                    Chrome.pending := [Chrome.auth_flow true false];
                    Chrome.store := None |}))
       = set_tokens (set_user Demo.signed_in (accepted_user Demo.signed_in d))
           (JString t) access.
Proof.
  apply (tokens_change_only_on_accepted_token Demo.the_host Demo.noon
           (Chrome.arrives 0
              (Chrome.auth
                 (redirect
                    "https://ext/callback#access_token=fresh&id_token=h.p.s")))
           {| Chrome.this := Demo.signed_in;
              Chrome.pending := [Chrome.auth_flow true false];
              Chrome.store := None |}).
  - discriminate.
  - left. vm_compute. discriminate.
Defined.

(** ** What holds in every state the page can reach *)

(** X22. An authorized instance always holds an ID token: in every state
    the page can reach, [is_authorized] true means that [id_token] is a
    non-empty string of three period-separated segments. *)
Theorem authorized_instance_holds_id_token (h : host) (st : Chrome.state) :
  Chrome.reachable h st ->
  is_authorized (Chrome.this st) = true ->
  exists t,
    id_token (Chrome.this st) = JString t /\ t <> ""
    /\ length (split "."%char t) = 3%nat.
Proof.
  intros Hreach.
  apply (reachable_keeps h
           (fun s => is_authorized s = true ->
                     exists t, id_token s = JString t /\ t <> ""
                               /\ length (split "."%char t) = 3%nat));
    [discriminate| | |exact Hreach].
  - intros m s s' Hs Hmove.
    destruct Hmove as [| |address|t d access Hne Hlen _ _]; cbn; try exact Hs.
    intros _. exists t. repeat split; assumption.
  - intros old s _ Hs Hauth. cbn in Hauth.
    destruct (Hs Hauth) as (t & Hid & Hrest).
    exists t. cbn. rewrite Hid. split; [reflexivity|exact Hrest].
Qed.

Lemma authorized_instance_holds_id_token_witness :
  exists t,
    id_token
      (Chrome.this (fst (Chrome.run Demo.the_host Demo.id_token_only
                           (Chrome.boot None))))
    = JString t
    /\ t <> "" /\ length (split "."%char t) = 3%nat.
Proof.
  apply (authorized_instance_holds_id_token Demo.the_host).
  - apply run_reachable. apply Chrome.reachable_boot.
  - reflexivity.
Defined.

(** X23. In every state the page can reach, [current_nonce] is null or a
    nonce that [create_nonce] made, 36 characters in the GUID layout; once
    the instance is authorized it is never null. *)
Theorem current_nonce_is_null_or_guid (h : host) (st : Chrome.state) :
  Chrome.reachable h st ->
  (current_nonce (Chrome.this st) = JNull
   \/ exists n, current_nonce (Chrome.this st) = JString n
                /\ laid_out nonce_layout n = true
                /\ String.length n = 36%nat)
  /\ (is_authorized (Chrome.this st) = true ->
      current_nonce (Chrome.this st) <> JNull).
Proof.
  intros Hreach.
  apply (reachable_keeps h
           (fun s => (current_nonce s = JNull
                      \/ exists n, current_nonce s = JString n
                                   /\ laid_out nonce_layout n = true
                                   /\ String.length n = 36%nat)
                     /\ (is_authorized s = true -> current_nonce s <> JNull)));
    [split; [left; reflexivity|discriminate]| | |exact Hreach].
  - intros m s s' [Hnonce Hauth] Hmove.
    destruct Hmove as [| |address|t d access _ _ _ Hchecks]; cbn.
    + split; assumption.
    + split; [|discriminate]. right. eexists. split; [reflexivity|].
      destruct (create_nonce_spelled (nonce_random m)) as (Hl & Hn & _).
      split; assumption.
    + split; assumption.
    + split; [exact Hnonce|]. intros _.
      destruct Hchecks as (Hsame & _). rewrite Hsame. discriminate.
  - intros old s _ [Hnonce Hauth]. cbn.
    assert (Hkept : default (current_nonce old) (stored_value (current_nonce s))
                    = current_nonce s)
      by (destruct Hnonce as [-> |(n & -> & _)]; reflexivity).
    rewrite Hkept. split; assumption.
Qed.

Lemma current_nonce_is_null_or_guid_witness :
  current_nonce
    (Chrome.this (fst (Chrome.run Demo.the_host Demo.id_token_only
                         (Chrome.boot None))))
  <> JNull.
Proof.
  apply (current_nonce_is_null_or_guid Demo.the_host).
  - apply run_reachable. apply Chrome.reachable_boot.
  - reflexivity.
Defined.

(** X24. In every state the page can reach, the profile's [domain_type],
    which [authorize] sends as [domain_hint], is undefined, "consumers" or
    "organizations", and it is one of the two names once the instance is
    authorized. *)
Theorem domain_type_is_known (h : host) (st : Chrome.state) :
  Chrome.reachable h st ->
  known_domain_type (domain_type (user (Chrome.this st)))
  /\ (is_authorized (Chrome.this st) = true ->
      domain_type (user (Chrome.this st)) <> JUndefined).
Proof.
  intros Hreach.
  apply (reachable_keeps h
           (fun s => known_domain_type (domain_type (user s))
                     /\ (is_authorized s = true ->
                         domain_type (user s) <> JUndefined)));
    [split; [left; reflexivity|discriminate]| | |exact Hreach].
  - intros m s s' [Hknown Hauth] Hmove.
    destruct Hmove as [| |address|t d access _ _ _ _]; cbn;
      try (split; assumption).
    unfold known_domain_type.
    destruct (String.eqb (tid d) consumer_tenant);
      (split; [tauto|discriminate]).
  - intros old s _ [Hknown Hauth]. cbn.
    assert (Hkept : default JUndefined (stored_value (domain_type (user s)))
                    = domain_type (user s))
      by (destruct Hknown as [-> |[-> | ->]]; reflexivity).
    rewrite Hkept. split; assumption.
Qed.

Lemma domain_type_is_known_witness :
  known_domain_type
    (domain_type
       (user (Chrome.this (fst (Chrome.run Demo.the_host Demo.id_token_only
                                  (Chrome.boot None)))))).
Proof.
  apply (domain_type_is_known Demo.the_host).
  apply run_reachable. apply Chrome.reachable_boot.
Defined.

(** ** The second request waits for the reauthorization *)

(** X25. In the chrome copy a second mail-folder request comes to wait
    for its answer only in a turn that ran [callback()] of a [finish_auth]
    that [fetch_message_count] was waiting for: the turn in which that web
    auth flow failed, or the turn in which the profile request of the
    finished authorization was answered. An alarm, a click, a first
    response or an unawaited flow never starts one. *)
Theorem chrome_retry_needs_awaited_callback (h : host) (m : moment)
    (e : Chrome.event) (st : Chrome.state) :
  Chrome.retried_response ∉ Chrome.pending st ->
  Chrome.retried_response ∈ Chrome.pending (fst (Chrome.step h m e st)) ->
  exists i,
    (exists interactive message,
        e = Chrome.arrives i (Chrome.auth (lastError message))
        /\ Chrome.pending st !! i = Some (Chrome.auth_flow interactive true))
    \/ (exists r,
           e = Chrome.arrives i (Chrome.http r)
           /\ Chrome.pending st !! i = Some (Chrome.me_response true)).
Proof.
  intros Hbefore Hafter.
  assert (Hnew : forall waiting s effects tasks,
             waiting `sublist_of` Chrome.pending st ->
             Chrome.retried_response
             ∈ Chrome.pending (fst (Chrome.after st waiting (s, effects, tasks))) ->
             In Chrome.retried_response tasks).
  { intros waiting s effects tasks Hsub Hin. cbn in Hin.
    apply elem_of_app in Hin as [Hold|Hin].
    - exfalso. apply Hbefore. exact (elem_of_sublist _ _ _ Hold Hsub).
    - apply list_elem_of_In. exact Hin. }
  destruct e as [| |i a|]; cbn [Chrome.step] in Hafter.
  - exfalso. unfold Chrome.fetch_message_count, await_request in Hafter.
    destruct (negb (is_authorized (Chrome.this st)));
      apply Hnew in Hafter; try reflexivity;
      try destruct (is_fetch _); cbn in Hafter; intuition discriminate.
  - exfalso. unfold Chrome.onClicked in Hafter.
    destruct (negb (is_authorized (Chrome.this st)));
      [rewrite chrome_authorize_effect in Hafter|];
      apply Hnew in Hafter; try reflexivity; cbn in Hafter;
      intuition discriminate.
  - destruct (Chrome.pending st !! i) as [t|] eqn:Htask;
      [|contradiction].
    destruct (Chrome.resume h m t a (Chrome.this st)) as [[[s effects] tasks]|]
      eqn:Hresume; [|contradiction].
    apply Hnew in Hafter; [|apply sublist_delete].
    exists i.
    destruct (chrome_retry_follows_callback _ _ _ _ _ _ _ _ Hresume Hafter)
      as [(interactive & message & -> & ->)|(r & -> & ->)];
      [left|right]; eauto.
  - cbn in Hafter. apply elem_of_nil in Hafter. contradiction.
Qed.

Lemma chrome_retry_needs_awaited_callback_witness :
  exists i,
    (exists interactive message,
        Chrome.arrives 0 (Chrome.auth (lastError "interaction required"))
        = Chrome.arrives i (Chrome.auth (lastError message))
        /\ [Chrome.auth_flow false true] !! i
           = Some (Chrome.auth_flow interactive true))
    \/ (exists r,
           Chrome.arrives 0 (Chrome.auth (lastError "interaction required"))
           = Chrome.arrives i (Chrome.http r)
           /\ [Chrome.auth_flow false true] !! i
              = Some (Chrome.me_response true)).
Proof.
  apply (chrome_retry_needs_awaited_callback Demo.the_host Demo.noon
           (Chrome.arrives 0 (Chrome.auth (lastError "interaction required")))
           {| Chrome.this := Demo.signed_in;
              Chrome.pending := [Chrome.auth_flow false true];
              Chrome.store := None |}).
  - cbn. intros Hin. apply list_elem_of_singleton in Hin. discriminate.
  - cbn. apply list_elem_of_singleton. reflexivity.
Defined.

(** ** Unread totals, continued *)

Lemma double_exact_up_to (n : Z) : Z.abs n <= 2 ^ 53 -> double n = finite n.
Proof.
  intros Hn.
  destruct (Z.eq_dec (Z.abs n) (2 ^ 53)) as [Hedge|Hbelow];
    [|apply double_exact; lia].
  assert (Hcases : n = 2 ^ 53 \/ n = - 2 ^ 53) by lia.
  destruct Hcases as [-> | ->]; vm_compute; reflexivity.
Qed.

Lemma exact_total_from_zero (l : list folder) :
  whole_counts l -> 0 <= exact_total l.
Proof.
  unfold exact_total. induction 1 as [|f l (c & Hc & Hpos) _ IH]; [cbn; lia|].
  cbn [map foldr]. unfold count_of at 1. rewrite Hc. lia.
Qed.

(** Whole counts that total at most 2^53 add up exactly. *)
Lemma whole_counts_add_up (l : list folder) (count : Z) :
  whole_counts l -> 0 <= count -> count + exact_total l <= 2 ^ 53 ->
  fold_left add (map UnreadItemCount l) (finite count)
  = finite (count + exact_total l).
Proof.
  intros Hwhole. revert count.
  induction Hwhole as [|f l (c & Hc & Hpos) Hl IH]; intros count Hcount Hsum.
  - cbn. f_equal. unfold exact_total. cbn. lia.
  - pose proof (exact_total_from_zero l Hl) as Hrest.
    unfold exact_total in *. cbn [map foldr] in *.
    unfold count_of at 1 in Hsum. unfold count_of at 1.
    rewrite Hc in *. cbn [fold_left add].
    rewrite double_exact_up_to by lia.
    rewrite IH by lia. f_equal. lia.
Qed.

Lemma whole_counts_filter (keep : folder -> bool) (l : list folder) :
  whole_counts l ->
  whole_counts (List.filter keep l)
  /\ 0 <= exact_total (List.filter keep l) <= exact_total l.
Proof.
  unfold exact_total.
  induction 1 as [|f l (c & Hc & Hpos) Hl [IHw IHt]];
    [split; [constructor|cbn; lia]|].
  assert (Hf : count_of f = c) by (unfold count_of; rewrite Hc; reflexivity).
  cbn [List.filter map foldr]. rewrite Hf.
  destruct (keep f).
  - split; [constructor; [exists c; split; assumption|exact IHw]|].
    cbn [map foldr]. rewrite Hf. lia.
  - split; [exact IHw|lia].
Qed.

Lemma exact_total_filter_split (keep : folder -> bool) (l : list folder) :
  exact_total l
  = exact_total (List.filter (fun f => negb (keep f)) l)
    + exact_total (List.filter keep l).
Proof.
  unfold exact_total. induction l as [|f l IH]; [reflexivity|].
  cbn [List.filter map foldr].
  destruct (keep f); cbn [negb map foldr]; lia.
Qed.

Lemma exact_total_app (l1 l2 : list folder) :
  exact_total (l1 ++ l2) = exact_total l1 + exact_total l2.
Proof.
  unfold exact_total. induction l1 as [|f l1 IH]; [reflexivity|].
  cbn [app map foldr]. lia.
Qed.

Lemma exact_total_permutation (l l' : list folder) :
  Permutation l l' -> exact_total l = exact_total l'.
Proof.
  unfold exact_total.
  induction 1 as [|f l l' _ IH|f g l|l l' l'' _ IH _ IH'];
    cbn [map foldr]; lia.
Qed.

Lemma exact_outside_permutation (l l' : list folder) :
  Permutation l l' ->
  exact_total
    (List.filter (fun f => negb (String.eqb (DisplayName f) "Archive")) l)
  = exact_total
      (List.filter (fun f => negb (String.eqb (DisplayName f) "Archive")) l').
Proof.
  unfold exact_total.
  induction 1 as [|f l l' _ IH|f g l|l l' l'' _ IH _ IH'].
  - reflexivity.
  - cbn [List.filter].
    destruct (negb (String.eqb (DisplayName f) "Archive")); cbn [map foldr];
      lia.
  - cbn [List.filter].
    destruct (negb (String.eqb (DisplayName f) "Archive")),
      (negb (String.eqb (DisplayName g) "Archive")); cbn [map foldr]; lia.
  - lia.
Qed.

(** For whole counts that total at most 2^53, the chrome total is the
    exact total outside "Archive". *)
Lemma chrome_total_exact (l : list folder) :
  whole_counts l -> exact_total l <= 2 ^ 53 ->
  Chrome.calculate_total_unread_messages l
  = finite
      (exact_total
         (List.filter (fun f => negb (String.eqb (DisplayName f) "Archive"))
            l)).
Proof.
  intros Hwhole Hsum. rewrite chrome_total_leaves_archive_out.
  unfold unread_outside_archive, sum_of.
  destruct (whole_counts_filter
              (fun f => negb (String.eqb (DisplayName f) "Archive")) l Hwhole)
    as [Hkept Hless].
  rewrite (whole_counts_add_up _ 0 Hkept) by lia. reflexivity.
Qed.

(** Beyond 2^53 the order matters: two ones are lost after 2^53 and kept
    before it. *)
Example unread_total_depends_on_order :
  Chrome.calculate_total_unread_messages
    [ {| DisplayName := "Inbox"; UnreadItemCount := 9007199254740992 |};
      {| DisplayName := "Sent"; UnreadItemCount := 1 |};
      {| DisplayName := "Drafts"; UnreadItemCount := 1 |} ]
  = 9007199254740992
  /\ Chrome.calculate_total_unread_messages
       [ {| DisplayName := "Sent"; UnreadItemCount := 1 |};
         {| DisplayName := "Drafts"; UnreadItemCount := 1 |};
         {| DisplayName := "Inbox"; UnreadItemCount := 9007199254740992 |} ]
     = 9007199254740994.
Proof. split; vm_compute; reflexivity. Qed.

(** X26. For counts that are integers from 0 on and total at most 2^53,
    the unread total of the chrome copy does not depend on how the
    folders are grouped or ordered: the total of two lists put together is
    the sum of their totals, and reordering a list keeps its total. The
    total of part_000 is the exact total of all counts, the chrome total
    plus the unread count of the folders named "Archive". *)
Theorem unread_totals_compose (l1 l2 : list folder) :
  whole_counts l1 -> whole_counts l2 ->
  exact_total l1 + exact_total l2 <= 2 ^ 53 ->
  Chrome.calculate_total_unread_messages (l1 ++ l2)
  = add (Chrome.calculate_total_unread_messages l1)
      (Chrome.calculate_total_unread_messages l2)
  /\ (forall l, Permutation l1 l ->
                Chrome.calculate_total_unread_messages l
                = Chrome.calculate_total_unread_messages l1)
  /\ Part000.calculate_total_unread_messages l1 = finite (exact_total l1)
  /\ Part000.calculate_total_unread_messages l1
     = add (Chrome.calculate_total_unread_messages l1) (unread_in_archive l1).
Proof.
  intros Hw1 Hw2 Hsum.
  pose proof (exact_total_from_zero l1 Hw1) as Hpos1.
  pose proof (exact_total_from_zero l2 Hw2) as Hpos2.
  set (outside := fun f => negb (String.eqb (DisplayName f) "Archive")).
  destruct (whole_counts_filter outside l1 Hw1) as [_ Hout1].
  destruct (whole_counts_filter outside l2 Hw2) as [_ Hout2].
  assert (Hpart : Part000.calculate_total_unread_messages l1
                  = finite (exact_total l1)).
  { rewrite part000_total_adds_all. unfold unread_in_all, sum_of.
    rewrite (whole_counts_add_up _ 0 Hw1) by lia. reflexivity. }
  rewrite (chrome_total_exact l1 Hw1) by lia.
  rewrite (chrome_total_exact l2 Hw2) by lia.
  fold outside. split; [|split; [|split]].
  - rewrite chrome_total_exact;
      [|apply Forall_app; split; assumption|rewrite exact_total_app; lia].
    fold outside. rewrite List.filter_app, exact_total_app. cbn [add].
    rewrite double_exact_up_to by lia. reflexivity.
  - intros l Hperm.
    rewrite chrome_total_exact;
      [|exact (Permutation_Forall Hperm Hw1)
       |rewrite <- (exact_total_permutation _ _ Hperm); lia].
    f_equal. symmetry. apply exact_outside_permutation. exact Hperm.
  - exact Hpart.
  - rewrite Hpart. unfold unread_in_archive, sum_of.
    destruct (whole_counts_filter
                (fun f => String.eqb (DisplayName f) "Archive") l1 Hw1)
      as [Harchive Hin].
    rewrite (whole_counts_add_up _ 0 Harchive) by lia. cbn [add].
    pose proof (exact_total_filter_split
                  (fun f => String.eqb (DisplayName f) "Archive") l1)
      as Hsplit.
    cbn beta in Hsplit. subst outside.
    rewrite double_exact_up_to by lia. f_equal. lia.
Qed.

Lemma unread_totals_compose_witness :
  Chrome.calculate_total_unread_messages
    (Demo.three_folders ++ Demo.three_folders)
  = add (Chrome.calculate_total_unread_messages Demo.three_folders)
      (Chrome.calculate_total_unread_messages Demo.three_folders).
Proof.
  apply (unread_totals_compose Demo.three_folders Demo.three_folders).
  - repeat constructor; eexists; (split; [reflexivity|lia]).
  - repeat constructor; eexists; (split; [reflexivity|lia]).
  - vm_compute. discriminate.
Defined.

(** ** A later attempt and an earlier token *)

(** X27. Each [authorize] overwrites the nonce, so a token that answers
    an earlier attempt is rejected once a later attempt has drawn other
    random words: the instance keeps only the nonce of the attempt
    launched last. *)
Theorem earlier_attempt_token_is_rejected (h : host) (m1 m2 : moment)
    (i1 i2 : bool) (now : Z) (t : string) (d : claims) (s : session) :
  uint16_array8 (nonce_random m1) <> uint16_array8 (nonce_random m2) ->
  jwt_decode h t = Some d ->
  nonce d = create_nonce (nonce_random m1) ->
  let s1 := fst (Chrome.authorize h m1 i1 s) in
  let s2 := fst (Chrome.authorize h m2 i2 s1) in
  current_nonce s1 = JString (nonce d)
  /\ validate_id_token h now (JString t) s2 = Returned (false, s2).
Proof.
  intros Hwords Hdec Hnonce. cbv zeta.
  rewrite !chrome_authorize_effect. cbn [fst]. split.
  - unfold set_current_nonce. cbn [current_nonce]. rewrite Hnonce.
    reflexivity.
  - destruct (string_dec t "") as [->|Hne]; [reflexivity|].
    destruct (Nat.eq_dec (length (split "."%char t)) 3%nat) as [Hlen|Hlen];
      [|apply validate_id_token_wrong_shape; exact Hlen].
    match goal with |- validate_id_token _ _ _ ?s2 = _ =>
      destruct (validate_id_token_decoded h now t d s2 Hne Hlen Hdec)
        as [[Hchecks _]|[_ Hfalse]]; [|exact Hfalse]
    end.
    exfalso. destruct Hchecks as (Hsame & _).
    unfold set_current_nonce in Hsame. cbn [current_nonce] in Hsame.
    injection Hsame as Hsame. rewrite Hnonce in Hsame.
    destruct (create_nonce_spelled (nonce_random m1)) as (_ & _ & Hw1).
    destruct (create_nonce_spelled (nonce_random m2)) as (_ & _ & Hw2).
    apply Hwords. rewrite <- Hw1, <- Hw2, Hsame. reflexivity.
Qed.

Lemma earlier_attempt_token_is_rejected_witness :
  let s1 := fst (Chrome.authorize Demo.the_host Demo.noon true constructor) in
  let s2 :=
    fst (Chrome.authorize Demo.the_host
           {| nonce_random := [7]; state_random := []; now := 1500000 |}
           true s1) in
  current_nonce s1 = JString (nonce Demo.payload)
  /\ validate_id_token Demo.the_host 1500000 (JString "h.p.s") s2
     = Returned (false, s2).
Proof.
  apply (earlier_attempt_token_is_rejected Demo.the_host Demo.noon
           {| nonce_random := [7]; state_random := []; now := 1500000 |}
           true true 1500000 "h.p.s" Demo.payload constructor).
  - vm_compute. discriminate.
  - reflexivity.
  - reflexivity.
Defined.

(** ** The URL of part_000 *)

Lemma part000_authorize_query_keys (h : host) (m : moment)
    (interactive : bool) (s : session) :
  NoDup (keys (Part000.authorize_query h m interactive s)).
Proof.
  unfold Part000.authorize_query.
  destruct interactive; cbn [negb];
    apply (bool_decide_unpack _); vm_compute; exact I.
Qed.

(** X28. The URL that [authorize] of part_000 launches is the manifest's
    [auth_url] followed by the parameters below, each followed by '&'. It
    names the redirect [redirect_url], asks for [id_token token] with the
    space as it is in both modes, has no [state], and adds [prompt=none]
    and both hints to a silent attempt only. *)
Theorem part000_authorize_launches_url (h : host) (m : moment)
    (interactive : bool) (s : session) :
  snd (Part000.authorize h m interactive s)
  = launchWebAuthFlow
      (auth_url (manifest h)
       +:+ String.concat ""
             (map (fun p => p +:+ "&")
                (["client_id=" +:+ client_id (manifest h);
                  "redirect_url=" +:+ encodeURIComponent (redirect_url h);
                  "response_type=id_token token";
                  "scope="
                  +:+ encodeURIComponent (join " " (scopes (manifest h)));
                  "response_mode=fragment";
                  "nonce=" +:+ create_nonce (nonce_random m)]
                 ++ (if interactive then []
                     else ["prompt=none";
                           "domain_hint=" +:+ to_string (domain_type (user s));
                           "login_hint="
                           +:+ to_string (signin_name (user s))]))%list))
      interactive.
Proof.
  unfold Part000.authorize. cbn [snd]. unfold Part000.request_url_of.
  rewrite (part000_url_fold _ [] _ _ eq_refl
             (part000_authorize_query_keys h m interactive s)).
  unfold Part000.authorize_query. destruct interactive; reflexivity.
Qed.

(** ** Encoded values *)

Lemma escapes_safe_from_spec (count from n : nat) :
  escapes_safe_from count from = true ->
  (from <= n < from + count)%nat ->
  url_safe (encodeURIComponent (String (ascii_of_nat n) EmptyString)) = true.
Proof.
  revert from. induction count as [|count IH]; intros from Hall Hn; [lia|].
  cbn [escapes_safe_from] in Hall.
  apply andb_true_iff in Hall as [Hhere Hrest].
  destruct (Nat.eq_dec n from) as [->|Hne]; [exact Hhere|].
  apply (IH (S from)); [exact Hrest|lia].
Qed.

Lemma escape_safe (c : ascii) :
  url_safe (encodeURIComponent (String c EmptyString)) = true.
Proof.
  rewrite <- (ascii_nat_embedding c).
  apply (escapes_safe_from_spec 256 0); [vm_compute; reflexivity|].
  pose proof (nat_ascii_bounded c). lia.
Qed.

Lemma url_safe_app (a b : string) :
  url_safe (a +:+ b) = url_safe a && url_safe b.
Proof.
  unfold url_safe. induction a as [|x a IH]; [reflexivity|].
  rewrite append_String. cbn [list_ascii_of_string forallb].
  rewrite IH, andb_assoc. reflexivity.
Qed.

Lemma encodeURIComponent_safe (s : string) :
  url_safe (encodeURIComponent s) = true.
Proof.
  induction s as [|c s IH]; [reflexivity|].
  cbn [encodeURIComponent]. rewrite url_safe_app, IH, andb_true_r.
  pose proof (escape_safe c) as Hc. cbn [encodeURIComponent] in Hc.
  rewrite append_empty_r in Hc. exact Hc.
Qed.

Lemma url_safe_free_of (c : ascii) (s : string) :
  unreserved c = false -> c <> "%"%char -> url_safe s = true -> free_of c s.
Proof.
  intros Hc Hpercent. unfold url_safe.
  induction s as [|x s IH]; [intros _; exact I|].
  cbn [list_ascii_of_string forallb free_of]. intros Hs.
  apply andb_true_iff in Hs as [Hx Hrest]. split; [|exact (IH Hrest)].
  intros ->. rewrite Hc in Hx. cbn in Hx.
  apply Ascii.eqb_eq in Hx. contradiction.
Qed.

(** X29. The [redirect_uri] and [scope] that [authorize] puts in the URL
    are made of unreserved characters and '%' only, whatever the redirect
    URL and the scopes of the manifest are: they hold no '&', '=', '#' or
    space, so they can neither end their parameter nor start another. *)
Theorem encoded_parameters_are_safe (h : host) (m : moment)
    (interactive : bool) (s : session) (key : string) :
  key = "redirect_uri" \/ key = "scope" ->
  exists v,
    query_get (Chrome.authorize_query h m interactive s) key = JString v
    /\ url_safe v = true
    /\ free_of "&"%char v /\ free_of "="%char v /\ free_of "#"%char v
    /\ free_of " "%char v.
Proof.
  intros Hkey.
  assert (Hvalue : exists raw,
             query_get (Chrome.authorize_query h m interactive s) key
             = JString (encodeURIComponent raw)).
  { unfold Chrome.authorize_query.
    destruct Hkey as [-> | ->], interactive; cbn [negb];
      try destruct (truthy (domain_type (user s))
                    && truthy (signin_name (user s)));
      eexists; reflexivity. }
  destruct Hvalue as [raw ->]. eexists. split; [reflexivity|].
  pose proof (encodeURIComponent_safe raw) as Hsafe.
  repeat split; try exact Hsafe;
    (apply url_safe_free_of; [reflexivity|discriminate|exact Hsafe]).
Qed.

Lemma encoded_parameters_are_safe_witness :
  exists v,
    query_get (Chrome.authorize_query Demo.the_host Demo.noon true
                 Demo.signed_in) "scope" = JString v
    /\ url_safe v = true
    /\ free_of "&"%char v /\ free_of "="%char v /\ free_of "#"%char v
    /\ free_of " "%char v.
Proof.
  apply (encoded_parameters_are_safe Demo.the_host Demo.noon true
           Demo.signed_in "scope").
  right. reflexivity.
Defined.

(** ** Writing a query and reading it back *)

Lemma free_of_app (c : ascii) (a b : string) :
  free_of c a -> free_of c b -> free_of c (a +:+ b).
Proof.
  induction a as [|x a IH]; intros Ha Hb; [rewrite append_empty; exact Hb|].
  destruct Ha as [Hx Ha]. rewrite append_String. split; [exact Hx|].
  exact (IH Ha Hb).
Qed.

Lemma split_join (c : ascii) (parts : list string) :
  parts <> [] -> Forall (free_of c) parts ->
  split c (join (String c EmptyString) parts) = parts.
Proof.
  induction parts as [|p parts IH]; [congruence|]. intros _ Hfree.
  inversion Hfree as [|? ? Hp Hrest]; subst.
  destruct parts as [|p' parts'].
  - cbn [join]. apply split_free. exact Hp.
  - rewrite join_cons by (intros Hnil; discriminate Hnil).
    change (String c "" +:+ join (String c "") (p' :: parts'))
      with (String c (join (String c "") (p' :: parts'))).
    rewrite (split_at_separator _ _ _ Hp).
    rewrite IH by (try exact Hrest; intros Hnil; discriminate Hnil).
    reflexivity.
Qed.

Lemma plain_pair_text (kv : string * jsval) :
  plain_pair kv ->
  free_of "&"%char (pair_text kv)
  /\ param_key (pair_text kv) = fst kv
  /\ index (split "="%char (pair_text kv)) 1 = snd kv.
Proof.
  destruct kv as [k value]. intros (Hk & Hk' & v & Hv & Hamp & Heq).
  cbn [fst snd] in *. subst value. unfold pair_text, param_key. cbn [fst snd].
  change ("=" +:+ to_string (JString v)) with (String "="%char v).
  rewrite (split_at_separator _ _ _ Hk'), (split_free _ _ Heq).
  repeat split.
  apply free_of_app; [exact Hk|]. split; [discriminate|exact Hamp].
Qed.

(** X30. A query written by [generate_request_url] after a '#' is read
    back by [parse_auth_response]: for distinct keys, and keys and string
    values without '&' and '=', every value is found again under its key,
    unless that key is [__proto__], whose value is not stored. *)
Theorem serialized_query_parses_back (before : string) (q : query)
    (k v : string) :
  free_of "#"%char before -> NoDup (keys q) -> Forall plain_pair q ->
  (k, JString v) ∈ q -> k <> "__proto__" ->
  get (parse_auth_response (Chrome.generate_request_url (before +:+ "#") q)) k
  = JString v.
Proof.
  intros Hbefore Hnd Hplain Hin Hproto.
  rewrite generate_request_url_pairs by exact Hnd.
  rewrite append_associative.
  unfold get, parse_auth_response.
  rewrite (fragment_params_after_hash _ _ Hbefore).
  assert (Hparts : Forall (free_of "&"%char) (map pair_text q)).
  { apply Forall_map. apply (Forall_impl _ _ _ Hplain).
    intros kv Hkv. apply plain_pair_text. exact Hkv. }
  assert (Hsome : map pair_text q <> [])
    by (destruct q; [inversion Hin|intros Hnil; discriminate Hnil]).
  rewrite (split_join "&"%char _ Hsome Hparts).
  apply list_elem_of_split in Hin as (done & todo & Hq).
  destruct (keys_fresh _ _ _ _ _ Hq Hnd) as [_ Hlater].
  rewrite Hq, map_app. cbn [map]. rewrite fold_left_app. cbn [fold_left].
  assert (Hpair : plain_pair (k, JString v)).
  { rewrite Hq in Hplain. apply Forall_app in Hplain as [_ Hplain].
    inversion Hplain; assumption. }
  destruct (plain_pair_text _ Hpair) as (_ & Hkey & Hvalue).
  cbn [fst snd] in Hkey, Hvalue.
  rewrite (fold_parse_param_other _ _ k).
  - rewrite parse_param_files by (rewrite Hkey; exact Hproto).
    rewrite Hkey, Hvalue, lookup_insert_eq. reflexivity.
  - apply Forall_map.
    rewrite Hq in Hplain. apply Forall_app in Hplain as [_ Hplain].
    inversion Hplain as [|? ? _ Hrest]; subst.
    apply Forall_forall. intros kv Hkv.
    rewrite Forall_forall in Hrest.
    destruct (plain_pair_text _ (Hrest _ Hkv)) as (_ & -> & _).
    intros Hsame. apply Hlater. unfold keys.
    apply list_elem_of_fmap. exists kv. split; [symmetry; exact Hsame|].
    exact Hkv.
Qed.

Lemma serialized_query_parses_back_witness :
  get (parse_auth_response
         (Chrome.generate_request_url ("https://ext/callback" +:+ "#")
            [("access_token", JString "abc"); ("state", JString "1")]))
    "state"
  = JString "1".
Proof.
  apply (serialized_query_parses_back "https://ext/callback"
           [("access_token", JString "abc"); ("state", JString "1")]
           "state" "1").
  - cbn. repeat split; discriminate.
  - apply (bool_decide_unpack _). vm_compute. exact I.
  - repeat constructor; cbn; try discriminate;
      eexists; (split; [reflexivity|]); cbn; repeat split; discriminate.
  - right. left.
  - discriminate.
Defined.
